(** * gortp transports: receive loops, shutdown signalling and TCP framing

    A shallow embedding of [transportTCP.go] ([TransportTCP]) and of the
    multicast transport ([TransportMulticast], of which the repository
    holds two copies that differ in [ListenOnTransports] only).

    - Packets, addresses and the shared struct [TransportCommon] are
      records; a nil pointer, interface or channel is [None].
    - The three receive loops ([readDataPacket] of the TCP transport,
      [readDataPacket] and [readCtrlPacket] of the multicast transport) run
      as goroutines next to the owner of the transport.  They are one
      small-step machine ([loop_step]), instantiated by a [RecvLoop] each,
      whose steps a schedule interleaves with the owner's calls
      ([CloseRecv], [SetEndChannel], [SetCallUpper]).
    - Calls into package [net] and to the upper layer are recorded in a
      trace of [Event]s; what the socket hands to a read, and what the
      operating system answers during setup, are inputs of the model.
    - A run-time panic is a result of its own ([Panics], [Panicked]). *)

From Stdlib Require Import String.
From Stdlib.Strings Require Import Byte.
From Stdlib Require Import ZArith List Bool Lia.
Import ListNotations.
Local Open Scope Z_scope.

Set Implicit Arguments.

(** ** Go slices *)

Module Go.

(** [len(s)] *)
Definition len {A : Type} (s : list A) : Z := Z.of_nat (length s).

(** [s[lo:hi]] on an array or on a slice whose capacity is its length:
    a run-time panic unless [0 <= lo <= hi <= len(s)]. *)
Definition slice {A : Type} (s : list A) (lo hi : Z) : option (list A) :=
  if (0 <=? lo) && (lo <=? hi) && (hi <=? len s)
  then Some (firstn (Z.to_nat (hi - lo)) (skipn (Z.to_nat lo) s))
  else None.

(** [copy(dst, src)]: the first [min(len(dst), len(src))] elements of [src]
    overwrite the front of [dst]. *)
Definition copy {A : Type} (dst src : list A) : list A :=
  let k := Nat.min (length dst) (length src) in
  firstn k src ++ skipn k dst.

End Go.

(** ** The part of package [net] the transports use *)

Definition IP : Type := list byte.

Record UDPAddr : Type := mkUDPAddr { udpIP : IP; udpPort : Z; udpZone : string }.

Record TCPAddr : Type := mkTCPAddr { tcpIP : IP; tcpPort : Z }.

(** A non-nil [error] value: its text, whether its dynamic type implements
    [net.Error], and what its [Timeout()] method answers. *)
Record error : Type := mkError
  { errText : string; isNetError : bool; netTimeout : bool }.

(** [e, ok := err.(net.Error); ok && e.Timeout()] *)
Definition isTimeout (err : error) : bool := isNetError err && netTimeout err.

(** [fmt.Errorf(prefix + "%w", err)]: the wrapper is no [net.Error]. *)
Definition Errorf (prefix : string) (err : error) : error :=
  mkError (prefix ++ errText err)%string false false.

(** The error of a read whose deadline expired. *)
Definition errDeadline : error := mkError "i/o timeout" true true.

(** ** Packets and addresses *)

Record Address : Type := mkAddress { IpAddr : IP; DataPort : Z; CtrlPort : Z }.

Record Packet : Type := mkPacket
  { fromAddr : Address; buffer : list byte; inUse : Z }.

Definition DataPacket : Type := Packet.
Definition CtrlPacket : Type := Packet.

Definition set_IpAddr (ip : IP) (rp : Packet) : Packet :=
  mkPacket (mkAddress ip (DataPort (fromAddr rp)) (CtrlPort (fromAddr rp)))
           (buffer rp) (inUse rp).

Definition set_DataPort (p : Z) (rp : Packet) : Packet :=
  mkPacket (mkAddress (IpAddr (fromAddr rp)) p (CtrlPort (fromAddr rp)))
           (buffer rp) (inUse rp).

Definition set_CtrlPort (p : Z) (rp : Packet) : Packet :=
  mkPacket (mkAddress (IpAddr (fromAddr rp)) (DataPort (fromAddr rp)) p)
           (buffer rp) (inUse rp).

Definition set_inUse (n : Z) (rp : Packet) : Packet :=
  mkPacket (fromAddr rp) (buffer rp) n.

Definition set_buffer (b : list byte) (rp : Packet) : Packet :=
  mkPacket (fromAddr rp) b (inUse rp).

(** The capacity of a packet's buffer. *)
Definition capacity (rp : Packet) : Z := Go.len (buffer rp).

(** ** Shared transport state *)

(** Modelled from the spec: the termination-reason values sent on the end
    channel (their declaration is not among the sources). *)
Inductive TransportEndValue : Type :=
| DataTransportRecvStopped
| CtrlTransportRecvStopped.

(** A channel value: [None] is the nil channel, [Some c] the channel [c].
    A send on a channel that is not nil is taken to complete (the owner
    receives, or the channel has room). *)
Definition TransportEnd : Type := option nat.

(** Modelled from the spec: the struct [TransportCommon] every backend embeds
    (its declaration is not among the sources); the fields are the ones the
    sources assign. *)
Record TransportCommon : Type := mkCommon
  { dataRecvStop : bool; ctrlRecvStop : bool; transportEnd : TransportEnd }.

(** The zero value of the struct, as [new(TransportTCP)] leaves it. *)
Definition zeroCommon : TransportCommon := mkCommon false false None.

Inductive StopFlag : Type := DataRecvStop | CtrlRecvStop.

Definition get_stop (f : StopFlag) (c : TransportCommon) : bool :=
  match f with
  | DataRecvStop => dataRecvStop c
  | CtrlRecvStop => ctrlRecvStop c
  end.

Definition set_stop (f : StopFlag) (b : bool) (c : TransportCommon)
  : TransportCommon :=
  match f with
  | DataRecvStop => mkCommon b (ctrlRecvStop c) (transportEnd c)
  | CtrlRecvStop => mkCommon (dataRecvStop c) b (transportEnd c)
  end.

(** A value of interface type [TransportRecv] held in [callUpper]: the
    transport itself (as the constructors install it) or another layer. *)
Inductive Layer : Type :=
| Self
| Upper (id : nat).

(** ** Effects *)

Inductive ConnId : Type := DataConn | CtrlConn.

Inductive Event : Type :=
| EvSetReadDeadline (c : ConnId) (ms : Z)
| EvRead (c : ConnId)
| EvOnRecvData (upper : Layer) (rp : DataPacket)
| EvOnRecvCtrl (upper : Layer) (rp : CtrlPacket)
| EvClose (c : ConnId)
| EvSend (ch : nat) (v : TransportEndValue)
| EvWriteToUDP (c : ConnId) (b : list byte) (to : UDPAddr).

Inductive Goroutine : Type :=
| GoListener
| GoReadDataPacket
| GoReadCtrlPacket.

(** What a read finds on the socket: a chunk of bytes with its sender, or an
    error.  An empty input list means nothing arrives before the deadline. *)
Inductive Incoming (A : Type) : Type :=
| Datagram (d : list byte) (from : A)
| Fault (e : error).

Arguments Fault {A} e.

(** What stays on the socket after a read of at most [size] bytes of the
    chunk [d]: a stream keeps the bytes that did not fit for the next read,
    a datagram socket drops them. *)
Definition leftover {A : Type} (stream : bool) (size : nat) (d : list byte)
  (a : A) (rest : list (Incoming A)) : list (Incoming A) :=
  match skipn size d with
  | [] => rest
  | more => if stream then Datagram more a :: rest else rest
  end.

(** What a read returned: [n] bytes from [addr] with a nil error, or an
    error. *)
Inductive Outcome (A : Type) : Type :=
| Got (n : Z) (addr : A)
| Failed (e : error).

Arguments Failed {A} e.

(** The result of filling a fresh packet: finished, or the goroutine
    panicked with the packet as it stood. *)
Inductive Built : Type :=
| Constructed (rp : Packet)
| Panics (rp : Packet).

(** ** The receiver contract *)

(** The methods of interface [TransportRecv] that the owner calls while a
    loop runs, with access to the two fields a loop reads. *)
Class TransportRecv (T : Type) : Type := mkTransportRecv
  { common : T -> TransportCommon;
    set_common : TransportCommon -> T -> T;
    callUpper : T -> option Layer;
    SetCallUpper : option Layer -> T -> T;
    CloseRecv : T -> T;
    SetEndChannel : TransportEnd -> T -> T }.

(** What distinguishes one receive loop from its twins: the stop flag it
    clears and tests, the connection it reads and closes, whether that is a
    stream ([Read]) or a datagram socket ([ReadFromUDP]), the read deadline
    in milliseconds, how it fills a packet, the callback it calls and the
    value it sends when it is done. *)
Record RecvLoop (T A : Type) : Type := mkRecvLoop
  { stopFlag : StopFlag;
    conn : ConnId;
    isStream : bool;
    deadline : Z;
    construct : T -> list byte -> Z -> A -> Built;
    deliver : Layer -> Packet -> Event;
    stopped : TransportEndValue }.

Section Allocation.

(** The buffer size shared by all backends (a constant of the package,
    declared outside the sources). *)
Variable defaultBufferSize : nat.

(** Modelled from the spec: [newDataPacket] and [newCtrlPacket] allocate a
    zeroed packet with [inUse = 0] whose buffer has the shared size. *)
Definition newDataPacket : DataPacket :=
  mkPacket (mkAddress [] 0 0) (repeat x00 defaultBufferSize) 0.

Definition newCtrlPacket : CtrlPacket * Z :=
  (mkPacket (mkAddress [] 0 0) (repeat x00 defaultBufferSize) 0, 0).

(** [var buf [defaultBufferSize]byte] *)
Definition newBuf : list byte := repeat x00 defaultBufferSize.

End Allocation.

(** ** [transportTCP.go] *)

Module TransportTCP.

(** [type TransportTCP struct]; a connection or listener is named by its
    descriptor, a nil pointer is [None]. *)
Record t : Type := mk
  { Common : TransportCommon;
    callUpper : option Layer;
    toLower : option Layer;
    dataConn : option nat;
    ctrlConn : option nat;
    localAddrRtp : TCPAddr;
    localAddrRtcp : TCPAddr;
    remoteAddrRtp : option TCPAddr;
    remoteAddrRtcp : option TCPAddr }.

Definition set_Common (c : TransportCommon) (tp : t) : t :=
  mk c (callUpper tp) (toLower tp) (dataConn tp) (ctrlConn tp)
     (localAddrRtp tp) (localAddrRtcp tp) (remoteAddrRtp tp) (remoteAddrRtcp tp).

Definition set_callUpper (u : option Layer) (tp : t) : t :=
  mk (Common tp) u (toLower tp) (dataConn tp) (ctrlConn tp)
     (localAddrRtp tp) (localAddrRtcp tp) (remoteAddrRtp tp) (remoteAddrRtcp tp).

Definition set_dataConn (c : option nat) (tp : t) : t :=
  mk (Common tp) (callUpper tp) (toLower tp) c (ctrlConn tp)
     (localAddrRtp tp) (localAddrRtcp tp) (remoteAddrRtp tp) (remoteAddrRtcp tp).

Definition set_remoteAddrRtp (a : option TCPAddr) (tp : t) : t :=
  mk (Common tp) (callUpper tp) (toLower tp) (dataConn tp) (ctrlConn tp)
     (localAddrRtp tp) (localAddrRtcp tp) a (remoteAddrRtcp tp).

(** [NewTransportTCP]: the transport is its own upper layer until
    [SetCallUpper]; no socket is opened. *)
Definition NewTransportTCP (addr : IP) (port : Z) : t * option error :=
  (mk zeroCommon (Some Self) None None None
      (mkTCPAddr addr port) (mkTCPAddr addr (port + 1)) None None,
   None).

(** What the operating system answers to the calls of the listener. *)
Record Env : Type := mkEnv
  { ListenTCP : TCPAddr -> nat + error;
    AcceptTCP : nat -> (nat * TCPAddr) + error;
    ResolveTCPAddr : TCPAddr -> option TCPAddr }.

Inductive ListenerOutcome : Type :=
| ListenerReturns (tp : t) (spawned : list Goroutine)
| ListenerPanics (tp : t).

(** The body of the goroutine [ListenOnTransports] starts (lines 40-50).
    A failed [ListenTCP] makes it return; the error of [AcceptTCP] is not
    looked at, and after a failed accept [RemoteAddr()] is nil, so line 48
    panics; the error of [ResolveTCPAddr] is dropped. *)
Definition listener (os : Env) (tp : t) : ListenerOutcome :=
  match ListenTCP os (localAddrRtp tp) with
  | inr _ => ListenerReturns tp []
  | inl ln =>
      match AcceptTCP os ln with
      | inr _ => ListenerPanics (set_dataConn None tp)
      | inl (c, raddr) =>
          let tp := set_dataConn (Some c) tp in
          let tp := set_remoteAddrRtp (ResolveTCPAddr os raddr) tp in
          ListenerReturns tp [GoReadDataPacket]
      end
  end.

(** [ListenOnTransports] (lines 38-53): starts the listener goroutine and
    returns its named result [err], which nothing assigns. *)
Definition ListenOnTransports (tp : t) : t * option error * list Goroutine :=
  (tp, None, [GoListener]).

Definition SetCallUpper (upper : option Layer) (tp : t) : t :=
  set_callUpper upper tp.

(** [OnRecvData], [OnRecvCtrl]: a diagnostic line and [false]. *)
Definition OnRecvData (tp : t) (rp : DataPacket) : bool * string :=
  (false, "TransportTCP: no registered upper layer RTP packet handler"%string).

Definition OnRecvCtrl (tp : t) (rp : CtrlPacket) : bool * string :=
  (false, "TransportTCP: no registered upper layer RTCP packet handler"%string).

Definition CloseRecv (tp : t) : t :=
  let tp := set_Common (set_stop DataRecvStop true (Common tp)) tp in
  set_Common (set_stop CtrlRecvStop true (Common tp)) tp.

Definition SetEndChannel (ch : TransportEnd) (tp : t) : t :=
  set_Common (mkCommon (dataRecvStop (Common tp)) (ctrlRecvStop (Common tp)) ch) tp.

#[global] Instance recv : TransportRecv t :=
  mkTransportRecv Common set_Common callUpper SetCallUpper CloseRecv SetEndChannel.

Section Loop.

Variable defaultBufferSize : nat.

(** Lines 106-111 of [readDataPacket]: the fresh packet is filled from
    [tp.remoteAddrRtp] and from [buf[2:n]]. *)
Definition construct (tp : t) (buf : list byte) (n : Z) (_ : unit) : Built :=
  let rp := newDataPacket defaultBufferSize in
  match remoteAddrRtp tp with
  | None => Panics rp
  | Some raddr =>
      let rp := set_IpAddr (tcpIP raddr) rp in
      let rp := set_DataPort (tcpPort raddr) rp in
      let rp := set_CtrlPort 0 rp in
      let rp := set_inUse (n - 2) rp in
      match Go.slice buf 2 n with
      | None => Panics rp
      | Some src => Constructed (set_buffer (Go.copy (buffer rp) src) rp)
      end
  end.

(** [readDataPacket] (lines 90-118). *)
Definition readDataPacket : RecvLoop t unit :=
  mkRecvLoop DataRecvStop DataConn true 20 construct EvOnRecvData
             DataTransportRecvStopped.

End Loop.

End TransportTCP.

(** ** The multicast transport *)

Module TransportMulticast.

Record t : Type := mk
  { Common : TransportCommon;
    callUpper : option Layer;
    toLower : option Layer;
    dataConn : option nat;
    ctrlConn : option nat;
    localAddrRtp : UDPAddr;
    localAddrRtcp : UDPAddr }.

Definition set_Common (c : TransportCommon) (tp : t) : t :=
  mk c (callUpper tp) (toLower tp) (dataConn tp) (ctrlConn tp)
     (localAddrRtp tp) (localAddrRtcp tp).

Definition set_callUpper (u : option Layer) (tp : t) : t :=
  mk (Common tp) u (toLower tp) (dataConn tp) (ctrlConn tp)
     (localAddrRtp tp) (localAddrRtcp tp).

Definition set_toLower (l : option Layer) (tp : t) : t :=
  mk (Common tp) (callUpper tp) l (dataConn tp) (ctrlConn tp)
     (localAddrRtp tp) (localAddrRtcp tp).

Definition set_dataConn (c : option nat) (tp : t) : t :=
  mk (Common tp) (callUpper tp) (toLower tp) c (ctrlConn tp)
     (localAddrRtp tp) (localAddrRtcp tp).

Definition NewTransportMulticast (addr : IP) (port : Z) : t * option error :=
  (mk zeroCommon (Some Self) None None None
      (mkUDPAddr addr port "") (mkUDPAddr addr (port + 1) ""),
   None).

(** What the operating system answers during setup. *)
Record Env : Type := mkEnv
  { SetsockoptInt : option error;
    ListenPacket : nat + error;
    JoinGroup : IP -> option error;
    SetTOS : option error;
    ListenMulticastUDP : UDPAddr -> nat + error;
    SyscallConn : option error;
    RawControl : option error }.

(** What a call of [ListenOnTransports] leaves behind: the transport, the
    returned error, the goroutines it started and the lines it printed. *)
Record Listened : Type := mkListened
  { after : t;
    err : option error;
    started : list Goroutine;
    printed : list string }.

(** The [Control] hook of the [net.ListenConfig] (lines 65-74). *)
Definition Control (os : Env) : option error :=
  match SetsockoptInt os with
  | Some e => Some (Errorf "SO_REUSEADDR: " e)
  | None => None
  end.

(** [lc.ListenPacket]: the hook runs on the fresh socket before it is bound,
    and its error fails the call. *)
Definition lcListenPacket (os : Env) : nat + error :=
  match Control os with
  | Some e => inr e
  | None => ListenPacket os
  end.

(** [ListenOnTransports] (lines 59-104).  The text of the group address in
    the second message is left out. *)
Definition ListenOnTransports (os : Env) (tp : t) : Listened :=
  let mcastIP := udpIP (localAddrRtp tp) in
  match lcListenPacket os with
  | inr e => mkListened tp (Some (Errorf "ListenPacket: " e)) [] []
  | inl udpConn =>
      let tp := set_dataConn (Some udpConn) tp in
      match JoinGroup os mcastIP with
      | Some e => mkListened tp (Some (Errorf "JoinGroup: " e)) [] []
      | None =>
          let out :=
            match SetTOS os with
            | Some e =>
                [("failed to set TOS marking on dataConn: " ++ errText e)%string]
            | None => []
            end in
          mkListened tp None [GoReadDataPacket] out
      end
  end.

(** [setReuseAddr] of the second copy of the file: the error of
    [SyscallConn], else the one of [rc.Control]; the closure assigns the
    result of [SetsockoptInt] to the same variable, and the result of
    [rc.Control] then overwrites it. *)
Definition setReuseAddr (os : Env) : option error :=
  match SyscallConn os with
  | Some e => Some e
  | None => RawControl os
  end.

(** [ListenOnTransports] of the second copy of the file, which binds with
    [net.ListenMulticastUDP]. *)
Definition ListenOnTransports_second (os : Env) (tp : t) : Listened :=
  match ListenMulticastUDP os (localAddrRtp tp) with
  | inr e =>
      mkListened (set_dataConn None tp) (Some e) []
        [("ListenMulticastUDP for RTP err: " ++ errText e)%string]
  | inl c =>
      let tp := set_dataConn (Some c) tp in
      let out1 :=
        match setReuseAddr os with
        | Some e => [("setReusePort for RTP err: " ++ errText e)%string]
        | None => []
        end in
      let out2 :=
        match SetTOS os with
        | Some _ =>
            ["TransportMulticast: failed to set TOS marking on dataConn"%string]
        | None => []
        end in
      mkListened tp None [GoReadDataPacket] (out1 ++ out2)
  end.

Definition SetCallUpper (upper : option Layer) (tp : t) : t :=
  set_callUpper upper tp.

Definition OnRecvData (tp : t) (rp : DataPacket) : bool * string :=
  (false, "TransportMulticast: no registered upper layer RTP packet handler"%string).

Definition OnRecvCtrl (tp : t) (rp : CtrlPacket) : bool * string :=
  (false, "TransportMulticast: no registered upper layer RTCP packet handler"%string).

Definition CloseRecv (tp : t) : t :=
  let tp := set_Common (set_stop DataRecvStop true (Common tp)) tp in
  set_Common (set_stop CtrlRecvStop true (Common tp)) tp.

Definition SetEndChannel (ch : TransportEnd) (tp : t) : t :=
  set_Common (mkCommon (dataRecvStop (Common tp)) (ctrlRecvStop (Common tp)) ch) tp.

Definition SetToLower (lower : option Layer) (tp : t) : t :=
  set_toLower lower tp.

(** [WriteDataTo] and [WriteCtrlTo]: the call made on a connection, or
    [None] when slicing [rp.buffer[0:rp.inUse]] panics.  What [WriteToUDP]
    returns is returned unchanged. *)
Definition WriteDataTo (tp : t) (rp : DataPacket) (addr : Address)
  : option Event :=
  match Go.slice (buffer rp) 0 (inUse rp) with
  | None => None
  | Some b =>
      Some (EvWriteToUDP DataConn b (mkUDPAddr (IpAddr addr) (DataPort addr) ""))
  end.

Definition WriteCtrlTo (tp : t) (rp : CtrlPacket) (addr : Address)
  : option Event :=
  match Go.slice (buffer rp) 0 (inUse rp) with
  | None => None
  | Some b =>
      Some (EvWriteToUDP DataConn b (mkUDPAddr (IpAddr addr) (DataPort addr) ""))
  end.

Definition CloseWrite (tp : t) : t := tp.

#[global] Instance recv : TransportRecv t :=
  mkTransportRecv Common set_Common callUpper SetCallUpper CloseRecv SetEndChannel.

Section Loop.

Variable defaultBufferSize : nat.

(** Lines 205-210 of [readDataPacket]. *)
Definition constructData (tp : t) (buf : list byte) (n : Z) (addr : UDPAddr)
  : Built :=
  let rp := newDataPacket defaultBufferSize in
  let rp := set_IpAddr (udpIP addr) rp in
  let rp := set_DataPort (udpPort addr) rp in
  let rp := set_CtrlPort 0 rp in
  let rp := set_inUse n rp in
  match Go.slice buf 0 n with
  | None => Panics rp
  | Some src => Constructed (set_buffer (Go.copy (buffer rp) src) rp)
  end.

(** Lines 236-241 of [readCtrlPacket]. *)
Definition constructCtrl (tp : t) (buf : list byte) (n : Z) (addr : UDPAddr)
  : Built :=
  let rp := fst (newCtrlPacket defaultBufferSize) in
  let rp := set_IpAddr (udpIP addr) rp in
  let rp := set_CtrlPort (udpPort addr) rp in
  let rp := set_DataPort 0 rp in
  let rp := set_inUse n rp in
  match Go.slice buf 0 n with
  | None => Panics rp
  | Some src => Constructed (set_buffer (Go.copy (buffer rp) src) rp)
  end.

(** [readDataPacket] (lines 189-218) and [readCtrlPacket] (220-249). *)
Definition readDataPacket : RecvLoop t UDPAddr :=
  mkRecvLoop DataRecvStop DataConn false 20 constructData EvOnRecvData
             DataTransportRecvStopped.

Definition readCtrlPacket : RecvLoop t UDPAddr :=
  mkRecvLoop CtrlRecvStop CtrlConn false 100 constructCtrl EvOnRecvCtrl
             CtrlTransportRecvStopped.

End Loop.

End TransportMulticast.

(** ** The receive loop as a machine *)

(** Where the goroutine of a loop stands: before the assignment that clears
    the stop flag, at the top of an iteration, at the test of the stop flag
    with the result of the read in hand, past that test, after a [break]
    (before [Close], before the send), blocked in the send, returned, or
    panicked while filling the packet [rp]. *)
Inductive PC (A : Type) : Type :=
| AtEntry
| AtRead
| AtStopTest (o : Outcome A)
| AtProcess (o : Outcome A)
| AtClose
| AtSend
| Blocked
| Terminated
| Panicked (rp : Packet).

Arguments AtEntry {A}.
Arguments AtRead {A}.
Arguments AtClose {A}.
Arguments AtSend {A}.
Arguments Blocked {A}.
Arguments Terminated {A}.
Arguments Panicked {A} rp.

Record State (T A : Type) : Type := mkState
  { tp : T;
    pc : PC A;
    buf : list byte;
    input : list (Incoming A);
    trace : list Event }.

(** What the owner and the loop do, one step at a time. *)
Inductive Action : Type :=
| LoopStep
| CallCloseRecv
| CallSetEndChannel (ch : TransportEnd)
| CallSetCallUpper (upper : option Layer).

Section Machine.

Context {T A : Type} {R : TransportRecv T}.
Variable L : RecvLoop T A.

(** A read into [buf[0:]]: at most [len(buf)] bytes of the chunk at the head
    of the input reach the buffer; with no input the deadline expires. *)
Definition read (b : list byte) (inp : list (Incoming A))
  : list byte * Outcome A * list (Incoming A) :=
  match inp with
  | [] => (b, Failed errDeadline, [])
  | Datagram d a :: rest =>
      let d' := firstn (length b) d in
      (Go.copy b d', Got (Go.len d') a,
       leftover (isStream L) (length b) d a rest)
  | Fault e :: rest => (b, Failed e, rest)
  end.

(** One step of the goroutine.
    - [AtEntry]: the stop flag is cleared.
    - [AtRead]: [SetReadDeadline], then the read.
    - [AtStopTest]: [if tp.dataRecvStop { break }].
    - [AtProcess]: a timeout makes the loop [continue], any other error
      makes it [break]; else the packet is built and handed to [callUpper]
      unless that is nil.
    - [AtClose]: the loop's connection is closed.
    - [AtSend]: the send on [tp.transportEnd]; on the nil channel it blocks
      for ever. *)
Definition loop_step (s : State T A) : State T A :=
  match pc s with
  | AtEntry =>
      mkState (set_common (set_stop (stopFlag L) false (common (tp s))) (tp s))
              AtRead (buf s) (input s) (trace s)
  | AtRead =>
      let '(b, o, rest) := read (buf s) (input s) in
      mkState (tp s) (AtStopTest o) b rest
              (trace s ++ [EvSetReadDeadline (conn L) (deadline L);
                           EvRead (conn L)])
  | AtStopTest o =>
      if get_stop (stopFlag L) (common (tp s)) then
        mkState (tp s) AtClose (buf s) (input s) (trace s)
      else
        mkState (tp s) (AtProcess o) (buf s) (input s) (trace s)
  | AtProcess (Failed e) =>
      if isTimeout e then
        mkState (tp s) AtRead (buf s) (input s) (trace s)
      else
        mkState (tp s) AtClose (buf s) (input s) (trace s)
  | AtProcess (Got n addr) =>
      match construct L (tp s) (buf s) n addr with
      | Panics rp =>
          mkState (tp s) (Panicked rp) (buf s) (input s) (trace s)
      | Constructed rp =>
          match callUpper (tp s) with
          | Some upper =>
              mkState (tp s) AtRead (buf s) (input s)
                      (trace s ++ [deliver L upper rp])
          | None =>
              mkState (tp s) AtRead (buf s) (input s) (trace s)
          end
      end
  | AtClose =>
      mkState (tp s) AtSend (buf s) (input s) (trace s ++ [EvClose (conn L)])
  | AtSend =>
      match transportEnd (common (tp s)) with
      | None => mkState (tp s) Blocked (buf s) (input s) (trace s)
      | Some ch =>
          mkState (tp s) Terminated (buf s) (input s)
                  (trace s ++ [EvSend ch (stopped L)])
      end
  | Blocked => s
  | Terminated => s
  | Panicked _ => s
  end.

Definition step (a : Action) (s : State T A) : State T A :=
  match a with
  | LoopStep => loop_step s
  | CallCloseRecv =>
      mkState (CloseRecv (tp s)) (pc s) (buf s) (input s) (trace s)
  | CallSetEndChannel ch =>
      mkState (SetEndChannel ch (tp s)) (pc s) (buf s) (input s) (trace s)
  | CallSetCallUpper u =>
      mkState (SetCallUpper u (tp s)) (pc s) (buf s) (input s) (trace s)
  end.

(** A schedule is run from left to right. *)
Definition run (sched : list Action) (s : State T A) : State T A :=
  fold_left (fun s a => step a s) sched s.

(** The own stop flag of the loop, as the loop would read it now. *)
Definition stopRequested (s : State T A) : bool :=
  get_stop (stopFlag L) (common (tp s)).

End Machine.

(** The goroutine as [go tp.readDataPacket()] starts it. *)
Definition spawn {T A : Type} (defaultBufferSize : nat) (t0 : T)
  (inp : list (Incoming A)) : State T A :=
  mkState t0 AtEntry (newBuf defaultBufferSize) inp [].

(** ** Observations on traces *)

Definition isRead (e : Event) : bool :=
  match e with EvRead _ => true | _ => false end.

Definition isSend (e : Event) : bool :=
  match e with EvSend _ _ => true | _ => false end.

Definition isClose (e : Event) : bool :=
  match e with EvClose _ => true | _ => false end.

Definition isDelivery (e : Event) : bool :=
  match e with EvOnRecvData _ _ | EvOnRecvCtrl _ _ => true | _ => false end.

Definition count (p : Event -> bool) (tr : list Event) : nat :=
  length (filter p tr).

(** The packet an event hands to the upper layer. *)
Definition delivered (e : Event) : option Packet :=
  match e with
  | EvOnRecvData _ rp => Some rp
  | EvOnRecvCtrl _ rp => Some rp
  | _ => None
  end.

(** The loop has left its [for] statement through a [break]. *)
Definition exited {A : Type} (p : PC A) : bool :=
  match p with
  | AtClose | AtSend | Blocked | Terminated => true
  | _ => false
  end.

(** ** The three loops *)

Inductive Loop : Type := TCPData | MulticastData | MulticastCtrl.

Definition transportOf (k : Loop) : Type :=
  match k with
  | TCPData => TransportTCP.t
  | MulticastData => TransportMulticast.t
  | MulticastCtrl => TransportMulticast.t
  end.

Definition senderOf (k : Loop) : Type :=
  match k with
  | TCPData => unit
  | MulticastData => UDPAddr
  | MulticastCtrl => UDPAddr
  end.

#[global] Instance recvOf (k : Loop) : TransportRecv (transportOf k) :=
  match k with
  | TCPData => TransportTCP.recv
  | MulticastData => TransportMulticast.recv
  | MulticastCtrl => TransportMulticast.recv
  end.

Definition loopOf (defaultBufferSize : nat) (k : Loop)
  : RecvLoop (transportOf k) (senderOf k) :=
  match k with
  | TCPData => TransportTCP.readDataPacket defaultBufferSize
  | MulticastData => TransportMulticast.readDataPacket defaultBufferSize
  | MulticastCtrl => TransportMulticast.readCtrlPacket defaultBufferSize
  end.

(** Data loops report [DataTransportRecvStopped], the control loop
    [CtrlTransportRecvStopped]. *)
Definition isCtrl (k : Loop) : bool :=
  match k with MulticastCtrl => true | _ => false end.


(** ** Sample transports and inputs *)

Definition sampleSize : nat := 8.

Definition sampleChannel : nat := 7.

(** A TCP transport on 127.0.0.1:5004 whose connection from 10.0.0.1:40000
    has been accepted; no end channel yet. *)
Definition sampleTCPNoChannel : TransportTCP.t :=
  TransportTCP.set_remoteAddrRtp
    (Some (mkTCPAddr [x0a; x00; x00; x01] 40000))
    (TransportTCP.set_dataConn (Some 3%nat)
       (fst (TransportTCP.NewTransportTCP [x7f; x00; x00; x01] 5004))).

Definition sampleTCP : TransportTCP.t :=
  TransportTCP.SetEndChannel (Some sampleChannel) sampleTCPNoChannel.

(** A multicast transport on 224.0.0.1:5004 with its end channel. *)
Definition sampleMulticast : TransportMulticast.t :=
  TransportMulticast.SetEndChannel (Some sampleChannel)
    (TransportMulticast.set_dataConn (Some 3%nat)
       (fst (TransportMulticast.NewTransportMulticast [xe0; x00; x00; x01] 5004))).

(** The sender 192.168.0.2:6000. *)
Definition samplePeer : UDPAddr := mkUDPAddr [xc0; xa8; x00; x02] 6000 "".

(** A frame of RTP over TCP: the length 3, then three bytes. *)
Definition sampleFrame : list byte := [x00; x03; x61; x62; x63].

(** A read error that is a [net.Error] but no timeout, and one that is no
    [net.Error] at all. *)
Definition errRefused : error := mkError "read: connection refused" true false.

Definition errEOF : error := mkError "EOF" false false.

(** A datagram of twelve bytes, the size of an RTP header. *)
Definition sampleRTP : list byte :=
  [x80; x60; x00; x01; x00; x00; x00; xa0; xde; xad; xbe; xef].

(** An operating system on which the port of the TCP transport is taken:
    [net.ListenTCP] fails. *)
Definition errAddrInUse : error :=
  mkError "bind: address already in use" true false.

Definition samplePortTaken : TransportTCP.Env :=
  TransportTCP.mkEnv (fun _ => inr errAddrInUse)
                     (fun _ => inr errAddrInUse)
                     (fun a => Some a).

(** ** Schedules and trace shapes *)

Definition isLoopStep (a : Action) : bool :=
  match a with LoopStep => true | _ => false end.

(** The number of steps the loop takes in a schedule. *)
Definition loopSteps (sched : list Action) : nat :=
  length (filter isLoopStep sched).

(** A schedule of owner calls only. *)
Definition ownerOnly (sched : list Action) : bool :=
  forallb (fun a => negb (isLoopStep a)) sched.


(** The owner never installs a channel that is not nil. *)
Definition installsNoChannel (sched : list Action) : bool :=
  forallb (fun a => match a with CallSetEndChannel (Some _) => false | _ => true end)
          sched.

(** Neither a [Close] nor a send on the end channel has happened. *)
Definition quiet (tr : list Event) : Prop :=
  count isSend tr = 0%nat /\ count isClose tr = 0%nat.

(** The shape of the trace at each point of the loop: nothing is closed or
    signalled inside the loop, the connection is closed once before the
    send, and a returned loop has closed and then signalled exactly once. *)
Definition shutdownShape {T A : Type} (L : RecvLoop T A) (s : State T A)
  : Prop :=
  match pc s with
  | AtSend | Blocked =>
      exists body, trace s = body ++ [EvClose (conn L)] /\ quiet body
  | Terminated =>
      exists body ch,
        trace s = body ++ [EvClose (conn L); EvSend ch (stopped L)] /\
        quiet body
  | _ => quiet (trace s)
  end.

(** The reading of "the flag is observed at the top of the next iteration,
    and the loop breaks without another read": at the top of an iteration
    with the stop flag set, the next step of the loop leaves the loop and
    reads nothing. *)
Definition breaksBeforeReading {T A : Type} {R : TransportRecv T}
  (L : RecvLoop T A) : Prop :=
  forall s : State T A,
    pc s = AtRead -> stopRequested L s = true ->
    pc (loop_step L s) = AtClose /\
    count isRead (trace (loop_step L s)) = count isRead (trace s).

(** The stop test has not yet been passed for the read in hand. *)
Definition beforeStopTest {A : Type} (p : PC A) : bool :=
  match p with
  | AtRead | AtStopTest _ => true
  | _ => false
  end.

(** With the stop flag set and the loop past its entry: how many reads and
    deliveries may still come, and within how many steps of the loop it has
    left the [for] statement (or panicked). *)
Definition readsAhead {A : Type} (p : PC A) : nat :=
  match p with
  | AtRead | AtProcess _ => 1
  | _ => 0
  end.

Definition deliveriesAhead {A : Type} (p : PC A) : nat :=
  match p with
  | AtProcess _ => 1
  | _ => 0
  end.

Definition stepsToBreak {A : Type} (p : PC A) : nat :=
  match p with
  | AtProcess _ => 3
  | AtRead => 2
  | AtStopTest _ => 1
  | _ => 0
  end.

(** The loop has left the [for] statement or the goroutine is gone. *)
Definition exitedOrPanicked {A : Type} (p : PC A) : bool :=
  match p with
  | Panicked _ => true
  | _ => exited p
  end.

(** The failed read [e] is in hand, or the loop has left the [for]
    statement. *)
Definition failing {A : Type} (e : error) (p : PC A) : Prop :=
  p = AtStopTest (Failed e) \/ p = AtProcess (Failed e) \/ exited p = true.

(** Two states a loop cannot tell apart: they differ at most in fields of
    the transport the loop never looks at. *)
Definition sameView {T A : Type} {R : TransportRecv T} (L : RecvLoop T A)
  (s1 s2 : State T A) : Prop :=
  pc s1 = pc s2 /\ buf s1 = buf s2 /\ input s1 = input s2 /\
  trace s1 = trace s2 /\
  stopRequested L s1 = stopRequested L s2 /\
  transportEnd (common (tp s1)) = transportEnd (common (tp s2)) /\
  callUpper (tp s1) = callUpper (tp s2) /\
  construct L (tp s1) = construct L (tp s2).

(** [a] is the sender of a chunk of the input. *)
Definition fromInput {A : Type} (inp : list (Incoming A)) (a : A) : Prop :=
  exists d, In (Datagram d a) inp.

(** Where a delivered packet comes from: the loop built it, with the
    transport [t0] it was started on, from [n] bytes in its buffer that a
    read received from a sender of the input. *)
Definition builtFrom {T A : Type} (L : RecvLoop T A) (size : nat) (t0 : T)
  (inp : list (Incoming A)) (e : Event) (rp : Packet) : Prop :=
  exists (u : Layer) (b : list byte) (n : Z) (a : A),
    e = deliver L u rp /\ construct L t0 b n a = Constructed rp /\
    fromInput inp a /\ length b = size /\ 0 <= n <= Go.len b.

(** What holds of a loop started on [t0] with input [inp] and a buffer of
    [size] bytes, at every step. *)
Definition provenance {T A : Type} (L : RecvLoop T A) (size : nat) (t0 : T)
  (inp : list (Incoming A)) (s : State T A) : Prop :=
  construct L (tp s) = construct L t0 /\
  (forall d a, In (Datagram d a) (input s) -> fromInput inp a) /\
  length (buf s) = size /\
  match pc s with
  | AtStopTest (Got n a) | AtProcess (Got n a) =>
      fromInput inp a /\ 0 <= n <= Go.len (buf s)
  | _ => True
  end /\
  forall e rp,
    In e (trace s) -> delivered e = Some rp -> builtFrom L size t0 inp e rp.

(** ** Laws of the backends *)

(** What the owner's calls and the assignment to the embedded struct do to
    the two fields a loop reads. *)
Class TransportRecvLaws (T : Type) {R : TransportRecv T} : Prop :=
  { common_set_common :
      forall c (t0 : T), common (set_common c t0) = c;
    callUpper_set_common :
      forall c (t0 : T), callUpper (set_common c t0) = callUpper t0;
    common_CloseRecv :
      forall t0 : T,
        common (CloseRecv t0) = mkCommon true true (transportEnd (common t0));
    callUpper_CloseRecv :
      forall t0 : T, callUpper (CloseRecv t0) = callUpper t0;
    common_SetEndChannel :
      forall ch (t0 : T),
        common (SetEndChannel ch t0) =
        mkCommon (dataRecvStop (common t0)) (ctrlRecvStop (common t0)) ch;
    callUpper_SetEndChannel :
      forall ch (t0 : T), callUpper (SetEndChannel ch t0) = callUpper t0;
    common_SetCallUpper :
      forall u (t0 : T), common (SetCallUpper u t0) = common t0;
    callUpper_SetCallUpper :
      forall u (t0 : T), callUpper (SetCallUpper u t0) = u }.

Arguments TransportRecvLaws T {R}.

(** The packet a loop builds depends on no field the owner's calls or the
    loop's own assignment change, and what it hands upwards is a delivery
    of that packet. *)
Class RecvLoopLaws {T A : Type} {R : TransportRecv T} (L : RecvLoop T A)
  : Prop :=
  { construct_set_common :
      forall c t0, construct L (set_common c t0) = construct L t0;
    construct_CloseRecv :
      forall t0, construct L (CloseRecv t0) = construct L t0;
    construct_SetEndChannel :
      forall ch t0, construct L (SetEndChannel ch t0) = construct L t0;
    construct_SetCallUpper :
      forall u t0, construct L (SetCallUpper u t0) = construct L t0;
    delivered_deliver :
      forall u rp, delivered (deliver L u rp) = Some rp }.

Arguments RecvLoopLaws {T A R} L.

(** ** Further observations on runs *)

Definition eqConn (c1 c2 : ConnId) : bool :=
  match c1, c2 with
  | DataConn, DataConn => true
  | CtrlConn, CtrlConn => true
  | _, _ => false
  end.

(** A trace in which every read on the socket is armed: [SetReadDeadline]
    on the connection [c] with [ms] milliseconds comes immediately before
    each [Read] on [c], and nowhere else; [pending] says that the deadline
    has just been set. *)
Fixpoint armedFrom (c : ConnId) (ms : Z) (pending : bool) (tr : list Event)
  : bool :=
  match tr with
  | [] => negb pending
  | EvSetReadDeadline c1 ms1 :: rest =>
      negb pending && eqConn c1 c && (ms1 =? ms) && armedFrom c ms true rest
  | EvRead c1 :: rest =>
      pending && eqConn c1 c && armedFrom c ms false rest
  | _ :: rest => negb pending && armedFrom c ms false rest
  end.

(** The connection an event touches, if any. *)
Definition connOf (e : Event) : option ConnId :=
  match e with
  | EvSetReadDeadline c _ => Some c
  | EvRead c => Some c
  | EvClose c => Some c
  | EvWriteToUDP c _ _ => Some c
  | _ => None
  end.

(** The layer an event hands a packet to. *)
Definition upperOf (e : Event) : option Layer :=
  match e with
  | EvOnRecvData u _ => Some u
  | EvOnRecvCtrl u _ => Some u
  | _ => None
  end.

(** The owner installs no upper layer but a nil one. *)
Definition installsNoUpper (sched : list Action) : bool :=
  forallb (fun a => match a with CallSetCallUpper (Some _) => false | _ => true end)
          sched.

(** The transport holds what the loop dereferences: the address of the
    peer for the TCP loop. *)
Definition peerKnown (k : Loop) : transportOf k -> bool :=
  match k with
  | TCPData =>
      fun t0 =>
        match TransportTCP.remoteAddrRtp t0 with
        | Some _ => true
        | None => false
        end
  | MulticastData => fun _ => true
  | MulticastCtrl => fun _ => true
  end.

(** A chunk the loop takes in one read without a panic: any datagram for
    the multicast loops (what exceeds the buffer is cut off), for the TCP
    loop at least the two bytes of the header and at most the buffer. *)
Definition fits (k : Loop) (size : nat) (d : list byte) : bool :=
  match k with
  | TCPData => (2 <=? length d)%nat && (length d <=? size)%nat
  | MulticastData => true
  | MulticastCtrl => true
  end.

(** The packet a loop makes of the bytes [d] that a read returned, in
    closed form: the sender's address with the port in the field of the
    packet's kind, the bytes (without the two header bytes for TCP) at the
    front of a zeroed buffer, and their number. *)
Definition packetFor (size : nat) (k : Loop)
  : transportOf k -> list byte -> senderOf k -> Packet :=
  match k with
  | TCPData =>
      fun t0 d _ =>
        match TransportTCP.remoteAddrRtp t0 with
        | Some r =>
            mkPacket (mkAddress (tcpIP r) (tcpPort r) 0)
                     (skipn 2 d ++ repeat x00 (size - length (skipn 2 d)))
                     (Go.len d - 2)
        | None => newDataPacket size
        end
  | MulticastData =>
      fun _ d a =>
        mkPacket (mkAddress (udpIP a) (udpPort a) 0)
                 (d ++ repeat x00 (size - length d)) (Go.len d)
  | MulticastCtrl =>
      fun _ d a =>
        mkPacket (mkAddress (udpIP a) 0 (udpPort a))
                 (d ++ repeat x00 (size - length d)) (Go.len d)
  end.

(** A chunk with its sender, as it waits on the socket. *)
Definition arrival {A : Type} (da : list byte * A) : Incoming A :=
  Datagram (fst da) (snd da).

(** What one iteration that receives [d] from [a] adds to the trace. *)
Definition received (size : nat) (k : Loop) (t0 : transportOf k) (u : Layer)
  (da : list byte * senderOf k) : list Event :=
  [EvSetReadDeadline (conn (loopOf size k)) (deadline (loopOf size k));
   EvRead (conn (loopOf size k));
   deliver (loopOf size k) u
           (packetFor size k t0 (firstn size (fst da)) (snd da))].

(** What one iteration that times out adds to the trace. *)
Definition polled {T A : Type} (L : RecvLoop T A) : list Event :=
  [EvSetReadDeadline (conn L) (deadline L); EvRead (conn L)].

(** An operating system on which everything succeeds, for the transport
    that accepts a connection from 10.0.0.1:40000. *)
Definition sampleAccepting : TransportTCP.Env :=
  TransportTCP.mkEnv (fun _ => inl 4%nat)
                     (fun _ => inl (5%nat, mkTCPAddr [x0a; x00; x00; x01] 40000))
                     (fun a => Some a).

(** Operating systems for the multicast transport: one on which everything
    succeeds, one that refuses [SO_REUSEADDR], one that refuses to join the
    group. *)
Definition errPerm : error := mkError "operation not permitted" false false.

Definition sampleJoining : TransportMulticast.Env :=
  TransportMulticast.mkEnv None (inl 3%nat) (fun _ => None) None
                           (fun _ => inl 3%nat) None None.

Definition sampleNoReuse : TransportMulticast.Env :=
  TransportMulticast.mkEnv (Some errPerm) (inl 3%nat) (fun _ => None) None
                           (fun _ => inl 3%nat) None None.


(** * Facts *)

Unset Implicit Arguments.

(** ** Slices *)

Lemma len_nonneg {A : Type} (s : list A) : 0 <= Go.len s.
Proof. unfold Go.len. lia. Qed.

Lemma len_repeat {A : Type} (x : A) (n : nat) : Go.len (repeat x n) = Z.of_nat n.
Proof. unfold Go.len. now rewrite repeat_length. Qed.

Lemma slice_prefix {A : Type} (s : list A) (n : Z) :
  0 <= n <= Go.len s -> Go.slice s 0 n = Some (firstn (Z.to_nat n) s).
Proof.
  intros [H0 Hn]. unfold Go.slice.
  replace (0 <=? 0) with true by reflexivity.
  rewrite (proj2 (Z.leb_le 0 n) H0), (proj2 (Z.leb_le n (Go.len s)) Hn).
  cbn [andb]. now rewrite Z.sub_0_r.
Qed.

Lemma slice_out_of_range {A : Type} (s : list A) (lo hi : Z) :
  hi < lo -> Go.slice s lo hi = None.
Proof.
  intros H. unfold Go.slice.
  rewrite (proj2 (Z.leb_gt lo hi) H).
  now rewrite andb_false_r.
Qed.

Lemma copy_fits {A : Type} (dst src : list A) :
  (length src <= length dst)%nat ->
  Go.copy dst src = src ++ skipn (length src) dst.
Proof.
  intros H. unfold Go.copy.
  rewrite Nat.min_r by exact H.
  now rewrite firstn_all.
Qed.

Lemma copy_length {A : Type} (dst src : list A) :
  length (Go.copy dst src) = length dst.
Proof.
  unfold Go.copy.
  rewrite length_app, length_firstn, length_skipn. lia.
Qed.

(** ** The backends obey the laws *)

#[global] Instance tcp_laws : TransportRecvLaws TransportTCP.t.
Proof. split; reflexivity. Qed.

#[global] Instance multicast_laws : TransportRecvLaws TransportMulticast.t.
Proof. split; reflexivity. Qed.

#[global] Instance tcp_data_laws (defaultBufferSize : nat) :
  RecvLoopLaws (TransportTCP.readDataPacket defaultBufferSize).
Proof. split; reflexivity. Qed.

#[global] Instance multicast_data_laws (defaultBufferSize : nat) :
  RecvLoopLaws (TransportMulticast.readDataPacket defaultBufferSize).
Proof. split; reflexivity. Qed.

#[global] Instance multicast_ctrl_laws (defaultBufferSize : nat) :
  RecvLoopLaws (TransportMulticast.readCtrlPacket defaultBufferSize).
Proof. split; reflexivity. Qed.

Lemma laws_of (k : Loop) : TransportRecvLaws (transportOf k).
Proof. destruct k; exact _. Qed.

Lemma loop_laws_of (defaultBufferSize : nat) (k : Loop) :
  RecvLoopLaws (loopOf defaultBufferSize k).
Proof. destruct k; exact _. Qed.



(** ** Counting events *)

Lemma count_app (p : Event -> bool) (a b : list Event) :
  count p (a ++ b) = (count p a + count p b)%nat.
Proof. unfold count. now rewrite filter_app, length_app. Qed.

Lemma quiet_app (a b : list Event) : quiet a -> quiet b -> quiet (a ++ b).
Proof.
  unfold quiet. intros [Ha1 Ha2] [Hb1 Hb2].
  rewrite !count_app. lia.
Qed.

Lemma delivered_kinds (e : Event) (rp : Packet) :
  delivered e = Some rp ->
  isDelivery e = true /\ isSend e = false /\ isClose e = false /\
  isRead e = false.
Proof. destruct e; simpl; intros H; try discriminate; auto. Qed.

(** ** The machine, whatever the loop *)

Section MachineFacts.

Context {T A : Type} {R : TransportRecv T} {RL : TransportRecvLaws T}.
Variable L : RecvLoop T A.
Context {LL : RecvLoopLaws L}.

Lemma run_cons (a : Action) (sched : list Action) (s : State T A) :
  run L (a :: sched) s = run L sched (step L a s).
Proof. reflexivity. Qed.

Lemma run_app (s1 s2 : list Action) (s : State T A) :
  run L (s1 ++ s2) s = run L s2 (run L s1 s).
Proof. unfold run. now rewrite fold_left_app. Qed.

(** The owner's calls touch the transport only. *)
Lemma owner_step_frame (a : Action) (s : State T A) :
  isLoopStep a = false ->
  pc (step L a s) = pc s /\ buf (step L a s) = buf s /\
  input (step L a s) = input s /\ trace (step L a s) = trace s.
Proof. destruct a; simpl; intros H; try discriminate; auto. Qed.

Lemma owner_run_frame (sched : list Action) (s : State T A) :
  ownerOnly sched = true ->
  pc (run L sched s) = pc s /\ buf (run L sched s) = buf s /\
  input (run L sched s) = input s /\ trace (run L sched s) = trace s.
Proof.
  revert s. induction sched as [|a sched IH]; intros s H; [now auto|].
  simpl in H. apply andb_prop in H. destruct H as [Ha Hs].
  rewrite run_cons.
  destruct (IH (step L a s) Hs) as (H1 & H2 & H3 & H4).
  destruct (owner_step_frame a s) as (G1 & G2 & G3 & G4).
  - now destruct a.
  - rewrite H1, H2, H3, H4. auto.
Qed.

(** *** The stop flag *)

Lemma get_set_stop (f : StopFlag) (b : bool) (c : TransportCommon) :
  get_stop f (set_stop f b c) = b.
Proof. now destruct f. Qed.

Lemma transportEnd_set_stop (f : StopFlag) (b : bool) (c : TransportCommon) :
  transportEnd (set_stop f b c) = transportEnd c.
Proof. now destruct f. Qed.

Lemma stop_after_CloseRecv (s : State T A) :
  stopRequested L (step L CallCloseRecv s) = true.
Proof.
  unfold stopRequested. simpl. rewrite common_CloseRecv.
  now destruct (stopFlag L).
Qed.

Lemma stop_owner_monotone (a : Action) (s : State T A) :
  isLoopStep a = false ->
  stopRequested L s = true -> stopRequested L (step L a s) = true.
Proof.
  unfold stopRequested.
  destruct a; simpl; intros Ha H; try discriminate.
  - rewrite common_CloseRecv. now destruct (stopFlag L).
  - rewrite common_SetEndChannel. now destruct (stopFlag L).
  - now rewrite common_SetCallUpper.
Qed.


(** *** The shape of the trace *)

Lemma quiet_deliver (u : Layer) (rp : Packet) : quiet [deliver L u rp].
Proof.
  destruct (delivered_kinds (deliver L u rp) rp (delivered_deliver u rp))
    as (_ & Hs & Hc & _).
  unfold quiet, count. simpl. now rewrite Hs, Hc.
Qed.

Lemma shape_loop_step (s : State T A) :
  shutdownShape L s -> shutdownShape L (loop_step L s).
Proof.
  unfold shutdownShape, loop_step.
  destruct (pc s) as [ | | o | [n a|e] | | | | | rp] eqn:Hpc; intros H.
  - exact H.
  - destruct (read L (buf s) (input s)) as [[b o] rest]. cbn.
    apply quiet_app; [exact H|]. now split.
  - destruct (get_stop (stopFlag L) (common (tp s))); exact H.
  - destruct (construct L (tp s) (buf s) n a) as [rp|rp]; [|exact H].
    destruct (callUpper (tp s)) as [u|]; cbn; [|exact H].
    apply quiet_app; [exact H|apply quiet_deliver].
  - destruct (isTimeout e); exact H.
  - cbn. exists (trace s). now split.
  - destruct H as (body & Htr & Hq).
    destruct (transportEnd (common (tp s))) as [ch|]; cbn.
    + exists body, ch. split; [|exact Hq].
      rewrite Htr, <- app_assoc. reflexivity.
    + exists body. now split.
  - rewrite Hpc. exact H.
  - rewrite Hpc. exact H.
  - rewrite Hpc. exact H.
Qed.

Lemma shape_step (a : Action) (s : State T A) :
  shutdownShape L s -> shutdownShape L (step L a s).
Proof.
  destruct a; [apply shape_loop_step | | | ]; intros H; exact H.
Qed.

Lemma shape_run (sched : list Action) (s : State T A) :
  shutdownShape L s -> shutdownShape L (run L sched s).
Proof.
  revert s. induction sched as [|a sched IH]; intros s H; [exact H|].
  rewrite run_cons. apply IH, shape_step, H.
Qed.


(** *** From a [break] to the end *)

Lemma terminated_stays (sched : list Action) (s : State T A) :
  pc s = Terminated ->
  pc (run L sched s) = Terminated /\ trace (run L sched s) = trace s.
Proof.
  revert s. induction sched as [|a sched IH]; intros s H; [now auto|].
  rewrite run_cons.
  assert (Hs : pc (step L a s) = Terminated /\ trace (step L a s) = trace s).
  { destruct a; simpl; auto. unfold loop_step. rewrite H. auto. }
  destruct Hs as [Hp Ht]. destruct (IH _ Hp) as [IH1 IH2].
  now rewrite IH1, IH2, Ht.
Qed.



End MachineFacts.

(** ** Failed reads and the stop flag *)

Ltac state_simpl := cbn [pc trace tp buf input].

Ltac stop_case :=
  state_simpl; rewrite ?count_app; cbn;
  repeat split; auto; try discriminate; try lia;
  try (intros [H | H]; discriminate H);
  try (intros _; split; [auto | lia]).

Section StopFacts.

Context {T A : Type} {R : TransportRecv T} {RL : TransportRecvLaws T}.
Variable L : RecvLoop T A.
Context {LL : RecvLoopLaws L}.

Lemma count_deliver (u : Layer) (rp : Packet) :
  count isRead [deliver L u rp] = 0%nat /\
  count isDelivery [deliver L u rp] = 1%nat.
Proof.
  destruct (delivered_kinds (deliver L u rp) rp (delivered_deliver u rp))
    as (Hd & _ & _ & Hr).
  unfold count. simpl. now rewrite Hd, Hr.
Qed.

(** Once out of the [for] statement the loop neither reads nor delivers. *)
Lemma exited_step (a : Action) (s : State T A) :
  exited (pc s) = true ->
  exited (pc (step L a s)) = true /\
  count isRead (trace (step L a s)) = count isRead (trace s) /\
  count isDelivery (trace (step L a s)) = count isDelivery (trace s).
Proof.
  intros H. destruct a; simpl; auto.
  unfold loop_step.
  destruct (pc s) as [ | | o | o | | | | | rp] eqn:Hpc; try discriminate.
  - state_simpl. rewrite !count_app. cbn. repeat split; lia.
  - destruct (transportEnd (common (tp s))); state_simpl; auto.
    rewrite !count_app. cbn. repeat split; lia.
  - rewrite Hpc. auto.
  - rewrite Hpc. auto.
Qed.

Lemma exited_run (sched : list Action) (s : State T A) :
  exited (pc s) = true ->
  exited (pc (run L sched s)) = true /\
  count isRead (trace (run L sched s)) = count isRead (trace s) /\
  count isDelivery (trace (run L sched s)) = count isDelivery (trace s).
Proof.
  revert s. induction sched as [|a sched IH]; intros s H; [now auto|].
  rewrite run_cons.
  destruct (exited_step a s H) as (H1 & H2 & H3).
  destruct (IH _ H1) as (G1 & G2 & G3).
  rewrite G2, G3, H2, H3. auto.
Qed.

(** A read that failed with an error that is no timeout: the loop leaves
    the [for] statement, whatever the owner does meanwhile. *)
Lemma failing_step (e : error) (a : Action) (s : State T A) :
  isTimeout e = false -> failing e (pc s) ->
  failing e (pc (step L a s)) /\
  count isRead (trace (step L a s)) = count isRead (trace s) /\
  count isDelivery (trace (step L a s)) = count isDelivery (trace s).
Proof.
  intros He [H | [H | H]].
  - destruct a; simpl; try (unfold failing; now auto).
    unfold loop_step. rewrite H.
    destruct (get_stop (stopFlag L) (common (tp s))); cbn;
      unfold failing; cbn; auto.
  - destruct a; simpl; try (unfold failing; now auto).
    unfold loop_step. rewrite H, He. unfold failing. cbn. auto.
  - destruct (exited_step a s H) as (H1 & H2 & H3).
    unfold failing. auto.
Qed.

Lemma failing_run (e : error) (sched : list Action) (s : State T A) :
  isTimeout e = false -> failing e (pc s) ->
  failing e (pc (run L sched s)) /\
  count isRead (trace (run L sched s)) = count isRead (trace s) /\
  count isDelivery (trace (run L sched s)) = count isDelivery (trace s).
Proof.
  intros He. revert s.
  induction sched as [|a sched IH]; intros s H; [now auto|].
  rewrite run_cons.
  destruct (failing_step e a s He H) as (H1 & H2 & H3).
  destruct (IH _ H1) as (G1 & G2 & G3).
  rewrite G2, G3, H2, H3. auto.
Qed.

Lemma failing_process_exits (e : error) (sched : list Action) (s : State T A) :
  isTimeout e = false -> pc s = AtProcess (Failed e) ->
  (1 <= loopSteps sched)%nat -> exited (pc (run L sched s)) = true.
Proof.
  intros He. revert s.
  induction sched as [|a sched IH]; intros s H Hn; [cbn in Hn; lia|].
  rewrite run_cons. destruct (isLoopStep a) eqn:Ha.
  - destruct a; try discriminate.
    apply exited_run. simpl. unfold loop_step. now rewrite H, He.
  - apply IH.
    + destruct (owner_step_frame L a s Ha) as (G1 & _). now rewrite G1.
    + unfold loopSteps in *. simpl in Hn. now rewrite Ha in Hn.
Qed.

Lemma failing_test_exits (e : error) (sched : list Action) (s : State T A) :
  isTimeout e = false -> pc s = AtStopTest (Failed e) ->
  (2 <= loopSteps sched)%nat -> exited (pc (run L sched s)) = true.
Proof.
  intros He. revert s.
  induction sched as [|a sched IH]; intros s H Hn; [cbn in Hn; lia|].
  rewrite run_cons. destruct (isLoopStep a) eqn:Ha.
  - destruct a; try discriminate.
    unfold loopSteps in Hn. simpl in Hn.
    simpl. unfold loop_step. rewrite H.
    destruct (get_stop (stopFlag L) (common (tp s))).
    + now apply exited_run.
    + apply (failing_process_exits e); [exact He|reflexivity|].
      unfold loopSteps. lia.
  - apply IH.
    + destruct (owner_step_frame L a s Ha) as (G1 & _). now rewrite G1.
    + unfold loopSteps in *. simpl in Hn. now rewrite Ha in Hn.
Qed.

(** A timeout with the stop flag unset: back to the top of the loop, with
    nothing delivered, whatever the owner does between the two steps. *)
Lemma timeout_retries (e : error) (owner : list Action) (s : State T A) :
  pc s = AtStopTest (Failed e) -> isTimeout e = true ->
  stopRequested L s = false -> ownerOnly owner = true ->
  pc (run L (LoopStep :: owner ++ [LoopStep]) s) = AtRead /\
  trace (run L (LoopStep :: owner ++ [LoopStep]) s) = trace s /\
  input (run L (LoopStep :: owner ++ [LoopStep]) s) = input s.
Proof.
  intros Hpc He Hstop Ho.
  rewrite run_cons, run_app.
  assert (H1 : step L LoopStep s =
               mkState (tp s) (AtProcess (Failed e)) (buf s) (input s) (trace s)).
  { simpl. unfold loop_step. rewrite Hpc.
    unfold stopRequested in Hstop. now rewrite Hstop. }
  rewrite H1.
  destruct (owner_run_frame L owner
              (mkState (tp s) (AtProcess (Failed e)) (buf s) (input s) (trace s)) Ho)
    as (G1 & G2 & G3 & G4).
  cbn in G1, G2, G3, G4.
  cbn [run fold_left step]. unfold loop_step.
  fold (run L owner
          (mkState (tp s) (AtProcess (Failed e)) (buf s) (input s) (trace s))).
  rewrite G1, He. cbn. auto.
Qed.

(** *** After [CloseRecv] *)

Lemma stop_step (a : Action) (s : State T A) :
  stopRequested L s = true -> pc s <> AtEntry ->
  stopRequested L (step L a s) = true /\ pc (step L a s) <> AtEntry /\
  (count isRead (trace (step L a s)) + readsAhead (pc (step L a s))
   <= count isRead (trace s) + readsAhead (pc s))%nat /\
  (count isDelivery (trace (step L a s)) + deliveriesAhead (pc (step L a s))
   <= count isDelivery (trace s) + deliveriesAhead (pc s))%nat /\
  (stepsToBreak (pc (step L a s))
   <= stepsToBreak (pc s) - (if isLoopStep a then 1 else 0))%nat /\
  (beforeStopTest (pc s) = true \/ exitedOrPanicked (pc s) = true ->
   (beforeStopTest (pc (step L a s)) = true \/
    exitedOrPanicked (pc (step L a s)) = true) /\
   count isDelivery (trace (step L a s)) = count isDelivery (trace s)).
Proof.
  intros Hstop Hpc.
  destruct (isLoopStep a) eqn:Ha.
  - destruct a; try discriminate. simpl.
    unfold stopRequested in *. unfold loop_step.
    destruct (pc s) as [ | | o | [n ad|e] | | | | | rp] eqn:Hp;
      try congruence.
    + destruct (read L (buf s) (input s)) as [[b o] rest]. stop_case.
    + rewrite Hstop. stop_case.
    + destruct (construct L (tp s) (buf s) n ad) as [rp|rp];
        [destruct (callUpper (tp s)) as [u|]|].
      * state_simpl. rewrite !count_app.
        destruct (count_deliver u rp) as [-> ->]. stop_case.
      * stop_case.
      * stop_case.
    + destruct (isTimeout e); stop_case.
    + stop_case.
    + destruct (transportEnd (common (tp s))) as [ch|]; stop_case.
    + rewrite Hp. stop_case.
    + rewrite Hp. stop_case.
    + rewrite Hp. stop_case.
  - destruct (owner_step_frame L a s Ha) as (G1 & G2 & G3 & G4).
    rewrite G1, G4.
    repeat split; auto; try lia.
    now apply stop_owner_monotone.
Qed.

Lemma stop_run (sched : list Action) (s : State T A) :
  stopRequested L s = true -> pc s <> AtEntry ->
  stopRequested L (run L sched s) = true /\
  pc (run L sched s) <> AtEntry /\
  (count isRead (trace (run L sched s)) + readsAhead (pc (run L sched s))
   <= count isRead (trace s) + readsAhead (pc s))%nat /\
  (count isDelivery (trace (run L sched s))
   + deliveriesAhead (pc (run L sched s))
   <= count isDelivery (trace s) + deliveriesAhead (pc s))%nat /\
  (stepsToBreak (pc (run L sched s))
   <= stepsToBreak (pc s) - loopSteps sched)%nat /\
  (beforeStopTest (pc s) = true \/ exitedOrPanicked (pc s) = true ->
   count isDelivery (trace (run L sched s)) = count isDelivery (trace s)).
Proof.
  revert s. induction sched as [|a sched IH]; intros s Hstop Hpc.
  - cbn. repeat split; auto; lia.
  - rewrite run_cons.
    destruct (stop_step a s Hstop Hpc) as (H1 & H2 & H3 & H4 & H5 & H6).
    destruct (IH _ H1 H2) as (G1 & G0 & G2 & G3 & G4 & G5).
    repeat split; auto.
    + lia.
    + lia.
    + unfold loopSteps in *. cbn [filter].
      destruct (isLoopStep a); cbv iota in H5; cbn [length]; lia.
    + intros Hb. destruct (H6 Hb) as [Hb' Hd].
      rewrite (G5 Hb'). exact Hd.
Qed.

(** *** Two runs the loop cannot tell apart *)

Lemma sameView_step (a : Action) (s1 s2 : State T A) :
  sameView L s1 s2 -> sameView L (step L a s1) (step L a s2).
Proof.
  unfold sameView, stopRequested.
  intros (Hpc & Hbuf & Hin & Htr & Hstop & Hend & Hup & Hcon).
  destruct a; simpl.
  - unfold loop_step. rewrite <- Hpc, <- Hbuf, <- Hin, <- Htr.
    destruct (pc s1) as [ | | o | [n ad|e] | | | | | rp] eqn:Hp.
    + state_simpl. rewrite !common_set_common, !get_set_stop,
        !transportEnd_set_stop, !callUpper_set_common, !construct_set_common.
      repeat split; auto.
    + destruct (read L (buf s1) (input s1)) as [[b o] rest]. state_simpl.
      repeat split; auto.
    + rewrite <- Hstop.
      destruct (get_stop (stopFlag L) (common (tp s1))) eqn:Hg; state_simpl;
        repeat split; auto; congruence.
    + rewrite <- Hcon.
      destruct (construct L (tp s1) (buf s1) n ad) as [rp|rp].
      * rewrite <- Hup. destruct (callUpper (tp s1)) eqn:Hu; state_simpl;
          repeat split; auto; congruence.
      * state_simpl. repeat split; auto.
    + destruct (isTimeout e); state_simpl; repeat split; auto.
    + state_simpl. repeat split; auto.
    + rewrite <- Hend.
      destruct (transportEnd (common (tp s1))) eqn:He; state_simpl;
        repeat split; auto; congruence.
    + rewrite <- Hpc, Hp. repeat split; auto.
    + rewrite <- Hpc, Hp. repeat split; auto.
    + rewrite <- Hpc, Hp. repeat split; auto.
  - rewrite !common_CloseRecv, !callUpper_CloseRecv, !construct_CloseRecv.
    repeat split; auto.
  - rewrite !common_SetEndChannel, !callUpper_SetEndChannel,
      !construct_SetEndChannel.
    repeat split; auto; destruct (stopFlag L); simpl in *; auto.
  - rewrite !common_SetCallUpper, !callUpper_SetCallUpper,
      !construct_SetCallUpper.
    repeat split; auto.
Qed.

Lemma sameView_run (sched : list Action) (s1 s2 : State T A) :
  sameView L s1 s2 -> sameView L (run L sched s1) (run L sched s2).
Proof.
  revert s1 s2. induction sched as [|a sched IH]; intros s1 s2 H; [exact H|].
  rewrite !run_cons. apply IH, sameView_step, H.
Qed.

(** The entry of the loop: the flag is cleared, whatever it was. *)
Lemma entry_clears (s : State T A) :
  pc s = AtEntry ->
  pc (loop_step L s) = AtRead /\ stopRequested L (loop_step L s) = false /\
  trace (loop_step L s) = trace s /\ input (loop_step L s) = input s.
Proof.
  intros H. unfold loop_step, stopRequested. rewrite H. state_simpl.
  rewrite common_set_common, get_set_stop. auto.
Qed.

Lemma entry_forgets_stop (s : State T A) :
  pc s = AtEntry ->
  sameView L (run L [CallCloseRecv; LoopStep] s) (run L [LoopStep] s).
Proof.
  intros H. cbn [run fold_left step]. unfold sameView, stopRequested, loop_step.
  state_simpl. rewrite H. state_simpl.
  rewrite !common_set_common, !get_set_stop, !transportEnd_set_stop,
    !callUpper_set_common, !construct_set_common,
    common_CloseRecv, callUpper_CloseRecv, construct_CloseRecv.
  repeat split; auto.
Qed.

(** *** The nil end channel *)

Lemma blocked_stays (sched : list Action) (s : State T A) :
  pc s = Blocked ->
  pc (run L sched s) = Blocked /\ trace (run L sched s) = trace s.
Proof.
  revert s. induction sched as [|a sched IH]; intros s H; [now auto|].
  rewrite run_cons.
  assert (Hs : pc (step L a s) = Blocked /\ trace (step L a s) = trace s).
  { destruct a; simpl; auto. unfold loop_step. rewrite H. auto. }
  destruct Hs as [Hp Ht]. destruct (IH _ Hp) as [IH1 IH2].
  now rewrite IH1, IH2, Ht.
Qed.

Lemma nil_channel_step (a : Action) (s : State T A) :
  transportEnd (common (tp s)) = None -> pc s <> Terminated ->
  match a with CallSetEndChannel (Some _) => false | _ => true end = true ->
  transportEnd (common (tp (step L a s))) = None /\
  pc (step L a s) <> Terminated.
Proof.
  intros Hnil Hpc Ha. destruct a as [ | | [ch|] | u]; simpl; try discriminate.
  - unfold loop_step.
    destruct (pc s) as [ | | o | [n ad|e] | | | | | rp] eqn:Hp;
      try congruence; state_simpl.
    + rewrite common_set_common, transportEnd_set_stop.
      split; [exact Hnil|discriminate].
    + destruct (read L (buf s) (input s)) as [[b o] rest]. state_simpl.
      split; [exact Hnil|discriminate].
    + destruct (get_stop (stopFlag L) (common (tp s))); state_simpl;
        (split; [exact Hnil|discriminate]).
    + destruct (construct L (tp s) (buf s) n ad) as [rp|rp];
        [destruct (callUpper (tp s))|]; state_simpl;
        (split; [exact Hnil|discriminate]).
    + destruct (isTimeout e); state_simpl; (split; [exact Hnil|discriminate]).
    + split; [exact Hnil|discriminate].
    + rewrite Hnil. state_simpl. split; [exact Hnil|discriminate].
    + rewrite Hp. split; [exact Hnil|discriminate].
    + rewrite Hp. split; [exact Hnil|discriminate].
  - rewrite common_CloseRecv. auto.
  - rewrite common_SetEndChannel. auto.
  - rewrite common_SetCallUpper. auto.
Qed.

Lemma nil_channel_run (sched : list Action) (s : State T A) :
  transportEnd (common (tp s)) = None -> pc s <> Terminated ->
  installsNoChannel sched = true ->
  transportEnd (common (tp (run L sched s))) = None /\
  pc (run L sched s) <> Terminated.
Proof.
  revert s. induction sched as [|a sched IH]; intros s Hnil Hpc Hs; [now auto|].
  simpl in Hs. apply andb_prop in Hs. destruct Hs as [Ha Hs].
  rewrite run_cons.
  destruct (nil_channel_step a s Hnil Hpc Ha) as [H1 H2].
  now apply IH.
Qed.

(** With the nil channel in place, a loop that has left its [for] statement
    closes its connection and then blocks in the send. *)
Lemma break_blocks (sched : list Action) (s : State T A) :
  pc s = AtClose -> transportEnd (common (tp s)) = None ->
  installsNoChannel sched = true -> (2 <= loopSteps sched)%nat ->
  pc (run L sched s) = Blocked /\
  trace (run L sched s) = trace s ++ [EvClose (conn L)].
Proof.
  intros Hpc Hnil Hs Hn.
  assert (Hgen : forall sched s,
    (pc s = AtClose \/ pc s = AtSend) ->
    transportEnd (common (tp s)) = None ->
    installsNoChannel sched = true ->
    ((if exited (pc s) then match pc s with AtClose => 2 | _ => 1 end else 0)
     <= loopSteps sched)%nat ->
    pc (run L sched s) = Blocked /\
    trace (run L sched s) =
    trace s ++ match pc s with AtClose => [EvClose (conn L)] | _ => [] end).
  { clear sched s Hpc Hnil Hs Hn. intros sched.
    induction sched as [|a sched IH]; intros s Hpc Hnil Hs Hn.
    - destruct Hpc as [H|H]; rewrite H in Hn; cbn in Hn; lia.
    - simpl in Hs. apply andb_prop in Hs. destruct Hs as [Ha Hs].
      rewrite run_cons. destruct (isLoopStep a) eqn:Hl.
      + destruct a; try discriminate. unfold loopSteps in Hn. simpl in Hn.
        destruct Hpc as [H|H].
        * destruct (IH (step L LoopStep s)) as [G1 G2].
          -- right. simpl. unfold loop_step. now rewrite H.
          -- simpl. unfold loop_step. now rewrite H.
          -- exact Hs.
          -- simpl. unfold loop_step. rewrite H. state_simpl. cbn.
             rewrite H in Hn. cbn in Hn. unfold loopSteps. lia.
          -- rewrite G1, G2. simpl. unfold loop_step. rewrite H. state_simpl.
             now rewrite app_nil_r.
        * simpl. unfold loop_step. rewrite H, Hnil.
          match goal with |- context [run L sched ?s'] =>
            destruct (blocked_stays sched s' eq_refl) as [G1 G2] end.
          rewrite G1, G2. state_simpl. now rewrite app_nil_r.
      + destruct (owner_step_frame L a s Hl) as (F1 & _ & _ & F4).
        destruct (nil_channel_step a s Hnil) as [N1 _].
        * destruct Hpc as [H|H]; rewrite H; discriminate.
        * exact Ha.
        * destruct (IH (step L a s)) as [G1 G2].
          -- now rewrite F1.
          -- exact N1.
          -- exact Hs.
          -- rewrite F1. unfold loopSteps in *. simpl in Hn.
             now rewrite Hl in Hn.
          -- rewrite G1, G2, F1, F4. auto. }
  destruct (Hgen sched s (or_introl Hpc) Hnil Hs) as [G1 G2].
  - now rewrite Hpc.
  - rewrite G1, G2, Hpc. auto.
Qed.

End StopFacts.

(** ** Where delivered packets come from *)

Section ProvenanceFacts.

Context {T A : Type} {R : TransportRecv T} {RL : TransportRecvLaws T}.
Variable L : RecvLoop T A.
Context {LL : RecvLoopLaws L}.
Variable size : nat.
Variable t0 : T.
Variable inp : list (Incoming A).

Lemma leftover_senders (stream : bool) (n : nat) (d : list byte) (a : A)
  (rest : list (Incoming A)) (d2 : list byte) (a2 : A) :
  In (Datagram d2 a2) (leftover stream n d a rest) ->
  a2 = a \/ In (Datagram d2 a2) rest.
Proof.
  unfold leftover.
  destruct (skipn n d) as [|x more]; [now right|].
  destruct stream; [|now right].
  intros [H|H]; [left; now inversion H|now right].
Qed.

Lemma read_spec (b : list byte) (i : list (Incoming A)) :
  forall b' o rest, read L b i = (b', o, rest) ->
  length b' = length b /\
  (forall d2 a2, In (Datagram d2 a2) rest -> exists d3, In (Datagram d3 a2) i) /\
  match o with
  | Got n a => (exists d, In (Datagram d a) i) /\ 0 <= n <= Go.len b'
  | Failed _ => True
  end.
Proof.
  intros b' o rest. unfold read.
  destruct i as [|[d a|e] i']; intros H; inversion H; subst; clear H.
  - repeat split; auto. intros d2 a2 [].
  - rewrite copy_length. repeat split; auto.
    + intros d2 a2 Hin.
      destruct (leftover_senders _ _ _ _ _ _ _ Hin) as [->|Hr].
      * exists d. now left.
      * exists d2. now right.
    + exists d. now left.
    + apply len_nonneg.
    + unfold Go.len. rewrite copy_length, length_firstn. lia.
  - repeat split; auto. intros d2 a2 Hin. exists d2. now right.
Qed.

Lemma provenance_owner (a : Action) (s : State T A) :
  isLoopStep a = false ->
  provenance L size t0 inp s -> provenance L size t0 inp (step L a s).
Proof.
  unfold provenance. intros Ha (H1 & H2 & H3 & H4 & H5).
  destruct a; try discriminate; simpl;
    rewrite ?construct_CloseRecv, ?construct_SetEndChannel,
      ?construct_SetCallUpper; auto.
Qed.

Lemma provenance_loop_step (s : State T A) :
  provenance L size t0 inp s -> provenance L size t0 inp (loop_step L s).
Proof.
  unfold provenance, loop_step. intros (H1 & H2 & H3 & H4 & H5).
  destruct (pc s) as [ | | o | [n ad|e] | | | | | rp] eqn:Hp.
  - state_simpl. rewrite construct_set_common. auto.
  - destruct (read L (buf s) (input s)) as [[b o] rest] eqn:Hr.
    destruct (read_spec _ _ _ _ _ Hr) as (G1 & G2 & G3).
    state_simpl.
    split; [exact H1|]. split.
    { intros d a Hin. destruct (G2 d a Hin) as [d3 Hd3]. now apply (H2 d3). }
    split; [now rewrite G1|]. split.
    { destruct o as [n ad|e]; [|exact I].
      destruct G3 as [[d Hd] Hn]. split; [|exact Hn].
      now apply (H2 d). }
    intros ev rp Hin Hd.
    apply in_app_or in Hin. destruct Hin as [Hin|Hin]; [now apply H5|].
    destruct Hin as [<-|[<-|[]]]; discriminate.
  - destruct (get_stop (stopFlag L) (common (tp s))); state_simpl;
      repeat split; auto.
  - destruct H4 as [Hfrom Hn].
    destruct (construct L (tp s) (buf s) n ad) as [rp|rp] eqn:Hc;
      [destruct (callUpper (tp s)) as [u|]|]; state_simpl;
      repeat split; auto.
    intros ev rp' Hin Hd.
    apply in_app_or in Hin. destruct Hin as [Hin|[<-|[]]]; [now apply H5|].
    rewrite delivered_deliver in Hd. inversion Hd; subst rp'.
    exists u, (buf s), n, ad. rewrite <- H1. repeat split; auto; lia.
  - destruct (isTimeout e); state_simpl; repeat split; auto.
  - state_simpl. repeat split; auto.
    intros ev rp Hin Hd.
    apply in_app_or in Hin. destruct Hin as [Hin|[<-|[]]]; [now apply H5|].
    discriminate.
  - destruct (transportEnd (common (tp s))) as [ch|]; state_simpl;
      repeat split; auto.
    intros ev rp Hin Hd.
    apply in_app_or in Hin. destruct Hin as [Hin|[<-|[]]]; [now apply H5|].
    discriminate.
  - rewrite Hp. repeat split; auto.
  - rewrite Hp. repeat split; auto.
  - rewrite Hp. repeat split; auto.
Qed.

Lemma provenance_run (sched : list Action) (s : State T A) :
  provenance L size t0 inp s -> provenance L size t0 inp (run L sched s).
Proof.
  revert s. induction sched as [|a sched IH]; intros s H; [exact H|].
  rewrite run_cons. apply IH.
  destruct (isLoopStep a) eqn:Ha.
  - destruct a; try discriminate. now apply provenance_loop_step.
  - now apply provenance_owner.
Qed.

End ProvenanceFacts.

Lemma provenance_spawn {T A : Type} (L : RecvLoop T A) (size : nat) (t0 : T)
  (inp : list (Incoming A)) :
  provenance L size t0 inp (spawn size t0 inp).
Proof.
  unfold provenance, spawn, newBuf. cbn.
  repeat split; auto.
  - intros d a H. now exists d.
  - apply repeat_length.
  - intros e rp [].
Qed.

(** Every delivery of a run was built by the loop from a read. *)
Lemma deliveries_built {T A : Type} {R : TransportRecv T}
  {RL : TransportRecvLaws T} (L : RecvLoop T A) {LL : RecvLoopLaws L}
  (size : nat) (t0 : T) (inp : list (Incoming A)) (sched : list Action)
  (e : Event) (rp : Packet) :
  In e (trace (run L sched (spawn size t0 inp))) ->
  delivered e = Some rp -> builtFrom L size t0 inp e rp.
Proof.
  intros Hin Hd.
  destruct (provenance_run L size t0 inp sched _ (provenance_spawn L size t0 inp))
    as (_ & _ & _ & _ & H).
  now apply H.
Qed.

(** ** What the loops build *)

Lemma skipn_repeat {A : Type} (x : A) (k n : nat) :
  skipn k (repeat x n) = repeat x (n - k).
Proof.
  revert n. induction k as [|k IH]; intros [|n]; simpl; auto.
Qed.

Lemma slice_some {A : Type} (s r : list A) (lo hi : Z) :
  Go.slice s lo hi = Some r ->
  0 <= lo <= hi /\ hi <= Go.len s /\
  r = firstn (Z.to_nat (hi - lo)) (skipn (Z.to_nat lo) s) /\
  Go.len r = hi - lo.
Proof.
  unfold Go.slice.
  destruct (0 <=? lo) eqn:H0; [|discriminate].
  destruct (lo <=? hi) eqn:H1; [|discriminate].
  destruct (hi <=? Go.len s) eqn:H2; [|discriminate].
  cbn [andb]. intros H. inversion H; subst r; clear H.
  apply Z.leb_le in H0, H1, H2.
  repeat split; auto.
  unfold Go.len in *. rewrite length_firstn, length_skipn. lia.
Qed.

Lemma slice_ok {A : Type} (s : list A) (lo hi : Z) :
  0 <= lo <= hi -> hi <= Go.len s ->
  Go.slice s lo hi = Some (firstn (Z.to_nat (hi - lo)) (skipn (Z.to_nat lo) s)).
Proof.
  intros [H0 H1] H2. unfold Go.slice.
  rewrite (proj2 (Z.leb_le _ _) H0), (proj2 (Z.leb_le _ _) H1),
    (proj2 (Z.leb_le _ _) H2).
  reflexivity.
Qed.

(** A fresh buffer after [copy]: the bytes copied, then zeros. *)
Lemma copy_into_fresh (size : nat) (src : list byte) :
  (length src <= size)%nat ->
  Go.copy (repeat x00 size) src = src ++ repeat x00 (size - length src).
Proof.
  intros H. rewrite copy_fits by (now rewrite repeat_length).
  now rewrite skipn_repeat.
Qed.

Section Construct.

Variable defaultBufferSize : nat.

(** The TCP loop on a read of at least two bytes. *)
Lemma tcp_construct_framed (tp : TransportTCP.t) (b : list byte) (n : Z)
  (raddr : TCPAddr) :
  TransportTCP.remoteAddrRtp tp = Some raddr ->
  length b = defaultBufferSize -> 2 <= n <= Go.len b ->
  exists payload,
    Go.slice b 2 n = Some payload /\ Go.len payload = n - 2 /\
    TransportTCP.construct defaultBufferSize tp b n tt =
    Constructed
      (mkPacket (mkAddress (tcpIP raddr) (tcpPort raddr) 0)
                (payload ++ repeat x00 (defaultBufferSize - length payload))
                (n - 2)).
Proof.
  intros Hr Hb Hn.
  pose proof (slice_ok b 2 n) as Hs.
  destruct (slice_some b _ 2 n (Hs ltac:(lia) ltac:(lia))) as (_ & _ & _ & Hl).
  eexists. split; [apply Hs; lia|]. split; [exact Hl|].
  unfold TransportTCP.construct. rewrite Hr, Hs by lia.
  unfold set_buffer, set_inUse, set_CtrlPort, set_DataPort, set_IpAddr,
    newDataPacket. cbn [buffer fromAddr inUse IpAddr DataPort CtrlPort].
  rewrite copy_into_fresh; [reflexivity|].
  unfold Go.len in *. lia.
Qed.

(** The TCP loop on a read of fewer than two bytes. *)
Lemma tcp_construct_short (tp : TransportTCP.t) (b : list byte) (n : Z)
  (raddr : TCPAddr) :
  TransportTCP.remoteAddrRtp tp = Some raddr -> n < 2 ->
  TransportTCP.construct defaultBufferSize tp b n tt =
  Panics (mkPacket (mkAddress (tcpIP raddr) (tcpPort raddr) 0)
                   (repeat x00 defaultBufferSize) (n - 2)).
Proof.
  intros Hr Hn. unfold TransportTCP.construct.
  rewrite Hr, slice_out_of_range by exact Hn. reflexivity.
Qed.

Lemma tcp_constructed (tp : TransportTCP.t) (b : list byte) (n : Z)
  (rp : Packet) :
  TransportTCP.construct defaultBufferSize tp b n tt = Constructed rp ->
  length b = defaultBufferSize ->
  (exists raddr,
     TransportTCP.remoteAddrRtp tp = Some raddr /\
     fromAddr rp = mkAddress (tcpIP raddr) (tcpPort raddr) 0) /\
  inUse rp = n - 2 /\ 0 <= inUse rp <= capacity rp.
Proof.
  unfold TransportTCP.construct. intros H Hb.
  destruct (TransportTCP.remoteAddrRtp tp) as [raddr|]; [|discriminate].
  destruct (Go.slice b 2 n) as [src|] eqn:Hs; [|discriminate].
  inversion H; subst rp; clear H.
  destruct (slice_some _ _ _ _ Hs) as (H0 & H1 & _ & Hl).
  split; [now exists raddr|].
  unfold capacity, Go.len in *. cbn.
  rewrite copy_length, repeat_length. lia.
Qed.

Lemma multicast_constructed_data (tp : TransportMulticast.t) (b : list byte)
  (n : Z) (a : UDPAddr) (rp : Packet) :
  TransportMulticast.constructData defaultBufferSize tp b n a = Constructed rp ->
  length b = defaultBufferSize ->
  fromAddr rp = mkAddress (udpIP a) (udpPort a) 0 /\
  inUse rp = n /\ 0 <= inUse rp <= capacity rp.
Proof.
  unfold TransportMulticast.constructData. intros H Hb.
  destruct (Go.slice b 0 n) as [src|] eqn:Hs; [|discriminate].
  inversion H; subst rp; clear H.
  destruct (slice_some _ _ _ _ Hs) as (H0 & H1 & _ & Hl).
  unfold capacity, Go.len in *. cbn.
  rewrite copy_length, repeat_length. repeat split; lia.
Qed.

Lemma multicast_constructed_ctrl (tp : TransportMulticast.t) (b : list byte)
  (n : Z) (a : UDPAddr) (rp : Packet) :
  TransportMulticast.constructCtrl defaultBufferSize tp b n a = Constructed rp ->
  length b = defaultBufferSize ->
  fromAddr rp = mkAddress (udpIP a) 0 (udpPort a) /\
  inUse rp = n /\ 0 <= inUse rp <= capacity rp.
Proof.
  unfold TransportMulticast.constructCtrl. intros H Hb.
  destruct (Go.slice b 0 n) as [src|] eqn:Hs; [|discriminate].
  inversion H; subst rp; clear H.
  destruct (slice_some _ _ _ _ Hs) as (H0 & H1 & _ & Hl).
  unfold capacity, Go.len in *. cbn.
  rewrite copy_length, repeat_length. repeat split; lia.
Qed.

(** The multicast loops never panic on what a read returns. *)
Lemma multicast_construct_total (tp : TransportMulticast.t) (b : list byte)
  (n : Z) (a : UDPAddr) :
  0 <= n <= Go.len b ->
  (exists rp,
     TransportMulticast.constructData defaultBufferSize tp b n a = Constructed rp) /\
  (exists rp,
     TransportMulticast.constructCtrl defaultBufferSize tp b n a = Constructed rp).
Proof.
  intros Hn.
  unfold TransportMulticast.constructData, TransportMulticast.constructCtrl.
  rewrite slice_prefix by exact Hn. split; eexists; reflexivity.
Qed.

End Construct.

(** Every packet a loop hands to the upper layer keeps [inUse] within the
    buffer. *)
Lemma delivered_inUse_in_bounds (defaultBufferSize : nat) (k : Loop)
  (t0 : transportOf k) (inp : list (Incoming (senderOf k)))
  (sched : list Action) (e : Event) (rp : Packet) :
  In e (trace (run (loopOf defaultBufferSize k) sched
                   (spawn defaultBufferSize t0 inp))) ->
  delivered e = Some rp -> 0 <= inUse rp <= capacity rp.
Proof.
  intros Hin Hd.
  pose proof (laws_of k) as RL.
  pose proof (loop_laws_of defaultBufferSize k) as LL.
  destruct (deliveries_built _ _ _ _ _ _ _ Hin Hd)
    as (u & b & n & a & _ & Hc & _ & Hb & _).
  destruct k; simpl in *.
  - destruct a. now apply (tcp_constructed _ _ _ _ _ Hc Hb).
  - now apply (multicast_constructed_data _ _ _ _ _ _ Hc Hb).
  - now apply (multicast_constructed_ctrl _ _ _ _ _ _ Hc Hb).
Qed.

(** ** Which loops can panic *)

Section NoPanic.

Context {T A : Type} {R : TransportRecv T} {RL : TransportRecvLaws T}.
Variable L : RecvLoop T A.
Context {LL : RecvLoopLaws L}.
Variable size : nat.
Variable t0 : T.
Variable inp : list (Incoming A).

Hypothesis construct_total :
  forall t1 b n a,
    length b = size -> 0 <= n <= Go.len b ->
    exists rp, construct L t1 b n a = Constructed rp.

Lemma no_panic_step (a : Action) (s : State T A) :
  provenance L size t0 inp s -> (forall rp, pc s <> Panicked rp) ->
  forall rp, pc (step L a s) <> Panicked rp.
Proof.
  intros (_ & _ & Hlen & Hn & _) Hpc rp.
  destruct a; simpl; try apply Hpc.
  unfold loop_step.
  destruct (pc s) as [ | | o | [n ad|e] | | | | | rp'] eqn:Hp;
    try discriminate.
  - now destruct (read L (buf s) (input s)) as [[b o] rest].
  - now destruct (get_stop (stopFlag L) (common (tp s))).
  - destruct Hn as [_ Hn].
    destruct (construct_total (tp s) (buf s) n ad Hlen Hn) as [rp1 ->].
    now destruct (callUpper (tp s)).
  - now destruct (isTimeout e).
  - now destruct (transportEnd (common (tp s))).
  - rewrite Hp. discriminate.
  - rewrite Hp. discriminate.
  - now elim (Hpc rp').
Qed.

Lemma no_panic_run (sched : list Action) (s : State T A) :
  provenance L size t0 inp s -> (forall rp, pc s <> Panicked rp) ->
  forall rp, pc (run L sched s) <> Panicked rp.
Proof.
  revert s. induction sched as [|a sched IH]; intros s Hprov Hpc rp;
    [apply Hpc|].
  rewrite run_cons. apply IH.
  - change (step L a s) with (run L [a] s). now apply provenance_run.
  - now apply no_panic_step.
Qed.

End NoPanic.

(** The multicast loops never panic while they fill a packet: only the TCP
    loop, which slices [buf[2:n]], can. *)
Lemma multicast_loops_never_panic (defaultBufferSize : nat)
  (t0 : TransportMulticast.t) (inp : list (Incoming UDPAddr))
  (sched : list Action) (rp : Packet) :
  pc (run (TransportMulticast.readDataPacket defaultBufferSize) sched
          (spawn defaultBufferSize t0 inp)) <> Panicked rp /\
  pc (run (TransportMulticast.readCtrlPacket defaultBufferSize) sched
          (spawn defaultBufferSize t0 inp)) <> Panicked rp.
Proof.
  split.
  - apply (no_panic_run (TransportMulticast.readDataPacket defaultBufferSize)
             defaultBufferSize t0 inp).
    + intros t1 b n a _ Hn.
      now destruct (multicast_construct_total defaultBufferSize t1 b n a Hn).
    + apply provenance_spawn.
    + discriminate.
  - apply (no_panic_run (TransportMulticast.readCtrlPacket defaultBufferSize)
             defaultBufferSize t0 inp).
    + intros t1 b n a _ Hn.
      now destruct (multicast_construct_total defaultBufferSize t1 b n a Hn).
    + apply provenance_spawn.
    + discriminate.
Qed.

(** ** The steps around a successful read *)

Section StepEquations.

Context {T A : Type} {R : TransportRecv T}.
Variable L : RecvLoop T A.

Lemma step_entry (s : State T A) :
  pc s = AtEntry ->
  loop_step L s =
  mkState (set_common (set_stop (stopFlag L) false (common (tp s))) (tp s))
          AtRead (buf s) (input s) (trace s).
Proof. intros H. unfold loop_step. now rewrite H. Qed.

Lemma step_read (s : State T A) (d : list byte) (a : A)
  (rest : list (Incoming A)) :
  pc s = AtRead -> input s = Datagram d a :: rest ->
  loop_step L s =
  mkState (tp s)
          (AtStopTest (Got (Go.len (firstn (length (buf s)) d)) a))
          (Go.copy (buf s) (firstn (length (buf s)) d))
          (leftover (isStream L) (length (buf s)) d a rest)
          (trace s ++ [EvSetReadDeadline (conn L) (deadline L); EvRead (conn L)]).
Proof. intros H Hi. unfold loop_step, read. now rewrite H, Hi. Qed.

Lemma leftover_fits (stream : bool) (n : nat) (d : list byte) (a : A)
  (rest : list (Incoming A)) :
  (length d <= n)%nat -> leftover stream n d a rest = rest.
Proof. intros H. unfold leftover. now rewrite skipn_all2. Qed.

Lemma step_test_passes (s : State T A) (o : Outcome A) :
  pc s = AtStopTest o -> stopRequested L s = false ->
  loop_step L s = mkState (tp s) (AtProcess o) (buf s) (input s) (trace s).
Proof.
  intros H Hs. unfold loop_step. unfold stopRequested in Hs.
  now rewrite H, Hs.
Qed.

Lemma step_deliver (s : State T A) (n : Z) (a : A) (rp : Packet) (u : Layer) :
  pc s = AtProcess (Got n a) ->
  construct L (tp s) (buf s) n a = Constructed rp ->
  callUpper (tp s) = Some u ->
  loop_step L s =
  mkState (tp s) AtRead (buf s) (input s) (trace s ++ [deliver L u rp]).
Proof. intros H Hc Hu. unfold loop_step. now rewrite H, Hc, Hu. Qed.

Lemma step_panic (s : State T A) (n : Z) (a : A) (rp : Packet) :
  pc s = AtProcess (Got n a) ->
  construct L (tp s) (buf s) n a = Panics rp ->
  loop_step L s = mkState (tp s) (Panicked rp) (buf s) (input s) (trace s).
Proof. intros H Hc. unfold loop_step. now rewrite H, Hc. Qed.

End StepEquations.

Lemma firstn_exact {A : Type} (l1 l2 : list A) :
  firstn (length l1) (l1 ++ l2) = l1.
Proof.
  rewrite firstn_app, firstn_all, Nat.sub_diag. cbn. apply app_nil_r.
Qed.

(** ** Setup of the multicast transport *)

(** The multicast transport reports a failed setup and starts nothing:
    [ListenOnTransports] returns an error exactly when it starts no
    goroutine; a failure to bind and a failure to join the group are both
    returned.  This holds for both copies of the function. *)
Lemma multicast_setup_failure_reported (os : TransportMulticast.Env)
  (tp0 : TransportMulticast.t) :
  let r := TransportMulticast.ListenOnTransports os tp0 in
  (TransportMulticast.err r = None ->
   TransportMulticast.started r = [GoReadDataPacket]) /\
  (TransportMulticast.err r <> None -> TransportMulticast.started r = []) /\
  (forall e, TransportMulticast.lcListenPacket os = inr e ->
             TransportMulticast.err r = Some (Errorf "ListenPacket: " e)) /\
  (forall c e,
      TransportMulticast.lcListenPacket os = inl c ->
      TransportMulticast.JoinGroup os (udpIP (TransportMulticast.localAddrRtp tp0))
      = Some e ->
      TransportMulticast.err r = Some (Errorf "JoinGroup: " e)).
Proof.
  cbv zeta. unfold TransportMulticast.ListenOnTransports.
  destruct (TransportMulticast.lcListenPacket os) as [c|e0].
  - destruct (TransportMulticast.JoinGroup os _) as [e1|]; cbn.
    + repeat split; try discriminate; auto.
      intros c' e' _ H. now inversion H.
    + repeat split; try discriminate; auto. now intros H.
  - cbn. repeat split; try discriminate; auto.
    intros e' H. now inversion H.
Qed.

Lemma multicast_second_setup_failure_reported (os : TransportMulticast.Env)
  (tp0 : TransportMulticast.t) :
  let r := TransportMulticast.ListenOnTransports_second os tp0 in
  (TransportMulticast.err r = None ->
   TransportMulticast.started r = [GoReadDataPacket]) /\
  (TransportMulticast.err r <> None -> TransportMulticast.started r = []) /\
  (forall e,
      TransportMulticast.ListenMulticastUDP os
        (TransportMulticast.localAddrRtp tp0) = inr e ->
      TransportMulticast.err r = Some e).
Proof.
  cbv zeta. unfold TransportMulticast.ListenOnTransports_second.
  destruct (TransportMulticast.ListenMulticastUDP os _) as [c|e0]; cbn.
  - repeat split; try discriminate; auto. now intros H.
  - repeat split; try discriminate; auto.
    intros e' H. now inversion H.
Qed.

(** ** Sample runs *)

(** The multicast transport receives the twelve bytes of [sampleRTP] from
    [samplePeer]: one call of [OnRecvData], with [inUse = 12]. *)
Example multicast_receives_twelve_bytes :
  trace (run (TransportMulticast.readDataPacket 16)
             [LoopStep; LoopStep; LoopStep; LoopStep]
             (spawn 16 sampleMulticast [Datagram sampleRTP samplePeer])) =
  [EvSetReadDeadline DataConn 20; EvRead DataConn;
   EvOnRecvData Self
     (mkPacket (mkAddress [xc0; xa8; x00; x02] 6000 0)
               (sampleRTP ++ [x00; x00; x00; x00]) 12)].
Proof. reflexivity. Qed.

(** A datagram longer than the buffer is cut to the buffer's length. *)
Example multicast_truncates_long_datagram :
  trace (run (TransportMulticast.readDataPacket sampleSize)
             [LoopStep; LoopStep; LoopStep; LoopStep]
             (spawn sampleSize sampleMulticast [Datagram sampleRTP samplePeer])) =
  [EvSetReadDeadline DataConn 20; EvRead DataConn;
   EvOnRecvData Self
     (mkPacket (mkAddress [xc0; xa8; x00; x02] 6000 0)
               [x80; x60; x00; x01; x00; x00; x00; xa0] 8)].
Proof. reflexivity. Qed.

(** A chunk of the stream longer than the buffer: the TCP loop reads the
    first eight bytes now and the other four with its next read. *)
Example tcp_stream_keeps_what_did_not_fit :
  let s := run (TransportTCP.readDataPacket sampleSize)
               [LoopStep; LoopStep; LoopStep; LoopStep; LoopStep]
               (spawn sampleSize sampleTCP [Datagram sampleRTP tt]) in
  pc s = AtStopTest (Got 4 tt) /\ count isDelivery (trace s) = 1%nat /\
  buf s = [xde; xad; xbe; xef; x00; x00; x00; xa0].
Proof. repeat split. Qed.

(** The TCP transport is stopped while it waits: the read times out, the
    flag is seen, the connection is closed and the owner is told. *)
Example tcp_stops_after_timeout :
  trace (run (TransportTCP.readDataPacket sampleSize)
             [LoopStep; CallCloseRecv; LoopStep; LoopStep; LoopStep; LoopStep]
             (spawn sampleSize sampleTCP [])) =
  [EvSetReadDeadline DataConn 20; EvRead DataConn;
   EvClose DataConn; EvSend sampleChannel DataTransportRecvStopped].
Proof. reflexivity. Qed.

(** The end of the stream ([io.EOF]) ends the TCP loop without any call of
    [CloseRecv]. *)
Example tcp_stops_on_EOF :
  let s := run (TransportTCP.readDataPacket sampleSize)
               [LoopStep; LoopStep; LoopStep; LoopStep; LoopStep; LoopStep;
                LoopStep; LoopStep; LoopStep]
               (spawn sampleSize sampleTCP
                      [Datagram sampleFrame tt; Fault errEOF]) in
  pc s = Terminated /\ count isDelivery (trace s) = 1%nat /\
  count isRead (trace s) = 2%nat.
Proof. repeat split. Qed.

(** * The claims *)

(** ** Shutdown signalling *)



(** ** TCP framing and the packet invariant *)

(** C2. The TCP data loop stands at the top of an iteration; its read
    returns [n] bytes, two bytes of header and then the payload, that fit
    the buffer; the stop flag is unset and an upper layer is installed.
    Then the next three steps deliver exactly one packet to that layer;
    its [inUse] is [n - 2], the length of the payload; its
    [buffer[0:inUse]] is the payload, the header gone; and the rest of the
    buffer is zero. *)
Theorem tcp_read_delivers_payload_without_header :
  forall (defaultBufferSize : nat) (s : State TransportTCP.t unit)
         (hdr payload : list byte) (rest : list (Incoming unit))
         (raddr : TCPAddr) (u : Layer),
    let L := TransportTCP.readDataPacket defaultBufferSize in
    let n := Go.len (hdr ++ payload) in
    pc s = AtRead -> length (buf s) = defaultBufferSize ->
    input s = Datagram (hdr ++ payload) tt :: rest ->
    length hdr = 2%nat ->
    (length (hdr ++ payload) <= defaultBufferSize)%nat ->
    stopRequested L s = false ->
    TransportTCP.remoteAddrRtp (tp s) = Some raddr ->
    callUpper (tp s) = Some u ->
    exists rp : DataPacket,
      trace (run L [LoopStep; LoopStep; LoopStep] s) =
      trace s ++ [EvSetReadDeadline DataConn 20; EvRead DataConn;
                  EvOnRecvData u rp] /\
      inUse rp = n - 2 /\ inUse rp = Go.len payload /\
      Go.slice (buffer rp) 0 (inUse rp) = Some payload /\
      buffer rp = payload ++ repeat x00 (defaultBufferSize - length payload).
Proof.
  intros dbs s hdr payload rest raddr u L n Hpc Hbuf Hin Hhdr Hfit Hstop Hr Hu.
  set (d := hdr ++ payload) in *.
  assert (Hd : firstn (length (buf s)) d = d).
  { apply firstn_all2. rewrite Hbuf. exact Hfit. }
  assert (Hn : n = 2 + Go.len payload).
  { unfold n, d, Go.len. rewrite length_app, Hhdr. lia. }
  cbn [run fold_left step].
  rewrite (step_read L s d tt rest Hpc Hin), Hd.
  rewrite leftover_fits by (rewrite Hbuf; exact Hfit).
  set (b := Go.copy (buf s) d).
  set (tr := trace s ++ [EvSetReadDeadline (conn L) (deadline L); EvRead (conn L)]).
  rewrite (step_test_passes L
             (mkState (tp s) (AtStopTest (Got (Go.len d) tt)) b rest tr)
             (Got (Go.len d) tt) eq_refl Hstop).
  state_simpl.
  assert (Hb : length b = dbs) by (unfold b; now rewrite copy_length).
  assert (Hcopy : b = hdr ++ payload ++ skipn (length d) (buf s)).
  { unfold b. rewrite copy_fits by (rewrite Hbuf; exact Hfit).
    unfold d. now rewrite <- app_assoc. }
  destruct (tcp_construct_framed dbs (tp s) b n raddr Hr Hb)
    as (payload' & Hs & Hl & Hc).
  { unfold n, Go.len in *. rewrite Hb. fold d. lia. }
  assert (Hp : payload' = payload).
  { destruct (slice_some _ _ _ _ Hs) as (_ & _ & -> & _).
    rewrite Hcopy.
    destruct hdr as [|h1 [|h2 [|h3 hdr]]]; try discriminate Hhdr.
    cbn [app]. change (Z.to_nat 2) with 2%nat. cbn [skipn].
    replace (Z.to_nat (n - 2)) with (length payload)
      by (unfold Go.len in Hn; lia).
    apply firstn_exact. }
  subst payload'.
  rewrite (step_deliver L
             (mkState (tp s) (AtProcess (Got (Go.len d) tt)) b rest tr)
             n tt _ u eq_refl Hc Hu).
  eexists. state_simpl. split.
  - unfold tr. rewrite <- app_assoc. reflexivity.
  - cbn [inUse buffer]. split; [reflexivity|]. split; [lia|]. split; [|reflexivity].
    rewrite slice_prefix.
    + replace (Z.to_nat (n - 2)) with (length payload)
        by (unfold Go.len in Hn; lia).
      now rewrite firstn_exact.
    + unfold Go.len in *. rewrite length_app. lia.
Qed.

(** The sample frame, read by the sample TCP transport. *)
Lemma tcp_read_delivers_payload_without_header_witness :
  let L := TransportTCP.readDataPacket sampleSize in
  let s := run L [LoopStep] (spawn sampleSize sampleTCP [Datagram sampleFrame tt]) in
  exists rp : DataPacket,
    trace (run L [LoopStep; LoopStep; LoopStep] s) =
    trace s ++ [EvSetReadDeadline DataConn 20; EvRead DataConn;
                EvOnRecvData Self rp] /\
    inUse rp = Go.len ([x00; x03] ++ [x61; x62; x63]) - 2 /\
    inUse rp = Go.len [x61; x62; x63] /\
    Go.slice (buffer rp) 0 (inUse rp) = Some [x61; x62; x63] /\
    buffer rp = [x61; x62; x63] ++ repeat x00 (sampleSize - 3).
Proof.
  intros L s.
  apply (tcp_read_delivers_payload_without_header sampleSize s
           [x00; x03] [x61; x62; x63] []
           (mkTCPAddr [x0a; x00; x00; x01] 40000) Self).
  - reflexivity.
  - reflexivity.
  - reflexivity.
  - reflexivity.
  - vm_compute. lia.
  - reflexivity.
  - reflexivity.
  - reflexivity.
Defined.

(** C3, at the input where the code breaks it.  The TCP data loop is
    started and its first read returns a single byte with a nil error:
    line 110 gives the fresh packet [inUse = n - 2], a negative number, and
    the slice [buf[2:n]] of line 111 panics; the goroutine is gone with
    nothing delivered and nothing closed. *)
Theorem tcp_one_byte_read_leaves_inUse_negative :
  forall (defaultBufferSize : nat) (t0 : TransportTCP.t) (raddr : TCPAddr)
         (x : byte) (rest : list (Incoming unit)),
    let L := TransportTCP.readDataPacket defaultBufferSize in
    let s := run L [LoopStep; LoopStep; LoopStep; LoopStep]
                 (spawn defaultBufferSize t0 (Datagram [x] tt :: rest)) in
    TransportTCP.remoteAddrRtp t0 = Some raddr ->
    exists rp : DataPacket,
      pc s = Panicked rp /\ inUse rp < 0 /\
      ~ (0 <= inUse rp <= capacity rp) /\
      trace s = [EvSetReadDeadline DataConn 20; EvRead DataConn].
Proof.
  intros dbs t0 raddr x rest L s Hr.
  set (n := Go.len (firstn (length (newBuf dbs)) [x])).
  assert (Hn : n < 2).
  { unfold n, Go.len. rewrite length_firstn. cbn [length]. lia. }
  exists (mkPacket (mkAddress (tcpIP raddr) (tcpPort raddr) 0)
                   (repeat x00 dbs) (n - 2)).
  assert (Hs : s = mkState
                 (TransportTCP.set_Common
                    (set_stop DataRecvStop false (TransportTCP.Common t0)) t0)
                 (Panicked (mkPacket (mkAddress (tcpIP raddr) (tcpPort raddr) 0)
                                     (repeat x00 dbs) (n - 2)))
                 (Go.copy (newBuf dbs) (firstn (length (newBuf dbs)) [x]))
                 (leftover true (length (newBuf dbs)) [x] tt rest)
                 [EvSetReadDeadline DataConn 20; EvRead DataConn]).
  { unfold s. cbn [run fold_left step].
    rewrite (step_entry L (spawn dbs t0 (Datagram [x] tt :: rest)) eq_refl).
    unfold spawn. state_simpl.
    match goal with |- loop_step L (loop_step L (loop_step L ?s1)) = _ =>
      rewrite (step_read L s1 [x] tt rest eq_refl eq_refl) end.
    state_simpl.
    match goal with |- loop_step L (loop_step L ?s2) = _ =>
      assert (Hstop : stopRequested L s2 = false) by reflexivity;
      rewrite (step_test_passes L s2 _ eq_refl Hstop) end.
    state_simpl.
    match goal with |- loop_step L ?s3 = _ =>
      rewrite (step_panic L s3 n tt
                 (mkPacket (mkAddress (tcpIP raddr) (tcpPort raddr) 0)
                           (repeat x00 dbs) (n - 2)) eq_refl) end.
    - reflexivity.
    - apply tcp_construct_short; [exact Hr|exact Hn]. }
  rewrite Hs. state_simpl. cbn [inUse].
  repeat split; lia.
Qed.

(** The sample TCP transport reads the single byte 0x80. *)
Lemma tcp_one_byte_read_leaves_inUse_negative_witness :
  let L := TransportTCP.readDataPacket sampleSize in
  let s := run L [LoopStep; LoopStep; LoopStep; LoopStep]
               (spawn sampleSize sampleTCP (Datagram [x80] tt :: [])) in
  exists rp : DataPacket,
    pc s = Panicked rp /\ inUse rp < 0 /\
    ~ (0 <= inUse rp <= capacity rp) /\
    trace s = [EvSetReadDeadline DataConn 20; EvRead DataConn].
Proof.
  intros L s.
  apply (tcp_one_byte_read_leaves_inUse_negative sampleSize sampleTCP
           (mkTCPAddr [x0a; x00; x00; x01] 40000) x80 []).
  reflexivity.
Defined.

(** The value [inUse] takes there. *)
Lemma tcp_one_byte_read_inUse :
  pc (run (TransportTCP.readDataPacket sampleSize)
          [LoopStep; LoopStep; LoopStep; LoopStep]
          (spawn sampleSize sampleTCP [Datagram [x80] tt])) =
  Panicked (mkPacket (mkAddress [x0a; x00; x00; x01] 40000 0)
                     (repeat x00 sampleSize) (-1)).
Proof. reflexivity. Qed.

(** ** Setup errors *)

(** C4, at the input where the code breaks it.  [ListenOnTransports] of
    the TCP transport returns a nil error before anything is tried; when
    [net.ListenTCP] then fails in the goroutine it started, that goroutine
    just returns: no error reaches the caller (and no receive loop is
    started). *)
Theorem tcp_listen_failure_not_returned :
  forall (os : TransportTCP.Env) (tp0 : TransportTCP.t) (e : error),
    TransportTCP.ListenTCP os (TransportTCP.localAddrRtp tp0) = inr e ->
    TransportTCP.ListenOnTransports tp0 = (tp0, None, [GoListener]) /\
    TransportTCP.listener os tp0 = TransportTCP.ListenerReturns tp0 [].
Proof.
  intros os tp0 e H. split; [reflexivity|].
  unfold TransportTCP.listener. now rewrite H.
Qed.

(** The port of the sample transport is taken. *)
Lemma tcp_listen_failure_not_returned_witness :
  let tp0 := fst (TransportTCP.NewTransportTCP [x7f; x00; x00; x01] 5004) in
  TransportTCP.ListenOnTransports tp0 = (tp0, None, [GoListener]) /\
  TransportTCP.listener samplePortTaken tp0 =
  TransportTCP.ListenerReturns tp0 [].
Proof.
  intros tp0.
  apply (tcp_listen_failure_not_returned samplePortTaken tp0 errAddrInUse).
  reflexivity.
Defined.

(** ** Read errors *)

(** C5. In each of the three loops a failed read is in hand once the read
    has returned.  If the error is a timeout and the stop flag is unset at
    the test, the loop is back at the top of its [for] statement two steps
    later, with nothing delivered and nothing closed, whatever the owner
    calls between the two steps.  If the error is no timeout, the loop
    never reads or delivers again and never returns to the top, whatever
    the schedule, and it is out of the [for] statement after two steps of
    its own. *)
Theorem read_error_retries_on_timeout_else_exits :
  forall (defaultBufferSize : nat) (k : Loop)
         (s : State (transportOf k) (senderOf k)) (e : error),
    let L := loopOf defaultBufferSize k in
    (forall rest, pc s = AtRead -> input s = Fault e :: rest ->
                  pc (loop_step L s) = AtStopTest (Failed e)) /\
    (pc s = AtStopTest (Failed e) -> isTimeout e = true ->
     stopRequested L s = false ->
     forall owner, ownerOnly owner = true ->
       pc (run L (LoopStep :: owner ++ [LoopStep]) s) = AtRead /\
       trace (run L (LoopStep :: owner ++ [LoopStep]) s) = trace s) /\
    (pc s = AtStopTest (Failed e) -> isTimeout e = false ->
     forall sched,
       count isRead (trace (run L sched s)) = count isRead (trace s) /\
       count isDelivery (trace (run L sched s)) = count isDelivery (trace s) /\
       pc (run L sched s) <> AtRead /\
       ((2 <= loopSteps sched)%nat -> exited (pc (run L sched s)) = true)).
Proof.
  intros dbs k s e. cbv zeta.
  pose proof (laws_of k) as RL.
  pose proof (loop_laws_of dbs k) as LL.
  split; [|split].
  - intros rest Hpc Hin. unfold loop_step. rewrite Hpc. unfold read.
    now rewrite Hin.
  - intros Hpc He Hstop owner Ho.
    destruct (timeout_retries (loopOf dbs k) e owner s Hpc He Hstop Ho)
      as (H1 & H2 & _).
    now split.
  - intros Hpc He sched.
    destruct (failing_run (loopOf dbs k) e sched s He (or_introl Hpc))
      as (H1 & H2 & H3).
    split; [exact H2|]. split; [exact H3|]. split.
    + destruct H1 as [H1|[H1|H1]]; intros Hc; rewrite Hc in H1; discriminate.
    + intros Hn. now apply (failing_test_exits (loopOf dbs k) e).
Qed.

(** The multicast data loop after a timeout, and after a refused
    connection. *)
Lemma read_error_retries_on_timeout_else_exits_witness :
  let L := loopOf sampleSize MulticastData in
  let s1 := run L [LoopStep; LoopStep]
                (spawn sampleSize sampleMulticast []) in
  let s2 := run L [LoopStep; LoopStep]
                (spawn sampleSize sampleMulticast [Fault errRefused]) in
  (pc (run L (LoopStep :: [CallSetCallUpper None] ++ [LoopStep]) s1) = AtRead /\
   trace (run L (LoopStep :: [CallSetCallUpper None] ++ [LoopStep]) s1) =
   trace s1) /\
  exited (pc (run L [LoopStep; LoopStep] s2)) = true.
Proof.
  intros L s1 s2. split.
  - destruct (read_error_retries_on_timeout_else_exits
                sampleSize MulticastData s1 errDeadline) as (_ & H & _).
    apply H; reflexivity.
  - destruct (read_error_retries_on_timeout_else_exits
                sampleSize MulticastData s2 errRefused) as (_ & _ & H).
    destruct (H eq_refl eq_refl [LoopStep; LoopStep]) as (_ & _ & _ & G).
    apply G. apply le_n.
Defined.

(** ** Observing the stop flag *)

(** C6, as the code has it.  Once [CloseRecv] has set the stop flag of a
    loop that is past its entry, the flag stays set and the loop tests it
    only after a read has returned: at most one more read is made (none
    when a read has returned and awaits the test, [readsAhead]); the test
    that follows a read then breaks out of the loop, so no read that
    returns after the flag was set is delivered, and nothing more is
    delivered at all unless a packet had passed the test before
    ([deliveriesAhead]); and after three steps of its own the loop is out of
    its [for] statement (or the goroutine has panicked). *)
Theorem stop_flag_tested_after_each_read :
  forall (defaultBufferSize : nat) (k : Loop)
         (s : State (transportOf k) (senderOf k)) (sched : list Action),
    let L := loopOf defaultBufferSize k in
    let s' := run L (CallCloseRecv :: sched) s in
    pc s <> AtEntry ->
    stopRequested L s' = true /\
    (count isRead (trace s') <= count isRead (trace s) + readsAhead (pc s))%nat /\
    (count isDelivery (trace s')
     <= count isDelivery (trace s) + deliveriesAhead (pc s))%nat /\
    (forall o, pc s' = AtStopTest o ->
               pc (loop_step L s') = AtClose /\
               trace (loop_step L s') = trace s') /\
    ((3 <= loopSteps sched)%nat -> exitedOrPanicked (pc s') = true).
Proof.
  intros dbs k s sched. cbv zeta. intros Hpc.
  pose proof (laws_of k) as RL.
  pose proof (loop_laws_of dbs k) as LL.
  rewrite run_cons.
  set (s1 := step (loopOf dbs k) CallCloseRecv s).
  assert (Hstop : stopRequested (loopOf dbs k) s1 = true)
    by apply stop_after_CloseRecv.
  assert (Hpc1 : pc s1 = pc s) by reflexivity.
  assert (Htr1 : trace s1 = trace s) by reflexivity.
  destruct (stop_run (loopOf dbs k) sched s1 Hstop)
    as (H1 & H0 & H2 & H3 & H4 & H5).
  { now rewrite Hpc1. }
  rewrite Hpc1, Htr1 in *.
  split; [exact H1|]. split; [|split; [|split]].
  - clear - H2. lia.
  - clear - H3. lia.
  - intros o Ho. unfold loop_step. rewrite Ho.
    unfold stopRequested in H1. now rewrite H1.
  - intros Hn.
    assert (Hz : stepsToBreak (pc (run (loopOf dbs k) sched s1)) = 0%nat).
    { assert (H : (stepsToBreak (pc s) <= 3)%nat)
        by (destruct (pc s); cbn; lia).
      clear - H H4 Hn. lia. }
    destruct (pc (run (loopOf dbs k) sched s1)); try discriminate;
      try reflexivity.
    now elim H0.
Qed.

(** The TCP loop, stopped between a delivery and the next iteration. *)
Lemma stop_flag_tested_after_each_read_witness :
  let L := loopOf sampleSize TCPData in
  let s := run L [LoopStep; LoopStep; LoopStep; LoopStep]
               (spawn sampleSize sampleTCP [Datagram sampleFrame tt]) in
  exitedOrPanicked
    (pc (run L [CallCloseRecv; LoopStep; LoopStep; LoopStep] s)) = true.
Proof.
  intros L s.
  destruct (stop_flag_tested_after_each_read sampleSize TCPData s
              [LoopStep; LoopStep; LoopStep]) as (_ & _ & _ & _ & H).
  - discriminate.
  - apply H. apply le_n.
Defined.

(** C6 as stated fails: the TCP loop has delivered a frame and stands at
    the top of its next iteration when the owner calls [CloseRecv]; its next
    step arms the deadline and reads once more instead of leaving the
    loop. *)
Lemma stop_flag_not_tested_before_read :
  let L := loopOf sampleSize TCPData in
  let s := run L [LoopStep; LoopStep; LoopStep; LoopStep; CallCloseRecv]
               (spawn sampleSize sampleTCP [Datagram sampleFrame tt]) in
  pc s = AtRead /\ stopRequested L s = true /\
  pc (loop_step L s) = AtStopTest (Failed errDeadline) /\
  trace (loop_step L s) =
  trace s ++ [EvSetReadDeadline DataConn 20; EvRead DataConn] /\
  ~ breaksBeforeReading L.
Proof.
  intros L s. repeat split.
  intros H. destruct (H s eq_refl eq_refl) as [Hpc _]. discriminate Hpc.
Qed.

(** ** Writing control packets *)

(** C7. For a control packet whose [inUse] lies within its buffer,
    [WriteCtrlTo] of the multicast transport calls [WriteToUDP] on the data
    connection with [rp.buffer[0:rp.inUse]] and the address made of
    [addr.IpAddr] and [addr.DataPort]: the same connection and the same
    destination as [WriteDataTo], never the control connection and never
    [addr.CtrlPort]. *)
Theorem multicast_ctrl_written_on_data_conn_to_data_port :
  forall (tp0 : TransportMulticast.t) (rp : CtrlPacket) (addr : Address),
    0 <= inUse rp <= capacity rp ->
    TransportMulticast.WriteCtrlTo tp0 rp addr =
    Some (EvWriteToUDP DataConn
            (firstn (Z.to_nat (inUse rp)) (buffer rp))
            (mkUDPAddr (IpAddr addr) (DataPort addr) "")) /\
    TransportMulticast.WriteCtrlTo tp0 rp addr =
    TransportMulticast.WriteDataTo tp0 rp addr /\
    forall c b dst,
      TransportMulticast.WriteCtrlTo tp0 rp addr = Some (EvWriteToUDP c b dst) ->
      c = DataConn /\ udpIP dst = IpAddr addr /\ udpPort dst = DataPort addr /\
      Go.len b = inUse rp.
Proof.
  intros tp0 rp addr Hin.
  unfold TransportMulticast.WriteCtrlTo, TransportMulticast.WriteDataTo.
  rewrite slice_prefix by exact Hin.
  split; [reflexivity|]. split; [reflexivity|].
  intros c b dst H. inversion H; subst. cbn.
  repeat split.
  unfold capacity, Go.len in *. rewrite length_firstn. lia.
Qed.

(** A control packet of four bytes for a peer whose control port is not
    its data port plus one. *)
Lemma multicast_ctrl_written_on_data_conn_to_data_port_witness :
  let rp := mkPacket (mkAddress [] 0 0)
                     ([x80; xc8; x00; x06] ++ repeat x00 4) 4 in
  let addr := mkAddress [xc0; xa8; x00; x02] 6000 7001 in
  TransportMulticast.WriteCtrlTo sampleMulticast rp addr =
  Some (EvWriteToUDP DataConn [x80; xc8; x00; x06]
          (mkUDPAddr [xc0; xa8; x00; x02] 6000 "")).
Proof.
  intros rp addr.
  apply (multicast_ctrl_written_on_data_conn_to_data_port
           sampleMulticast rp addr).
  vm_compute. split; discriminate.
Defined.

(** ** The sender's address *)



(** ** The reset of the stop flag *)

(** C9. The first step of each loop clears the loop's own stop flag,
    whatever its value, before anything is read; so a [CloseRecv] that
    comes before that step is lost: the run goes on, under any schedule, in
    a way the loop cannot tell from the run without that call. *)
Theorem entry_reset_overwrites_stop_request :
  forall (defaultBufferSize : nat) (k : Loop)
         (s : State (transportOf k) (senderOf k)) (sched : list Action),
    let L := loopOf defaultBufferSize k in
    pc s = AtEntry ->
    (pc (loop_step L s) = AtRead /\
     stopRequested L (loop_step L s) = false /\
     trace (loop_step L s) = trace s /\ input (loop_step L s) = input s) /\
    stopRequested L (run L [CallCloseRecv] s) = true /\
    stopRequested L (run L [CallCloseRecv; LoopStep] s) = false /\
    sameView L (run L (CallCloseRecv :: LoopStep :: sched) s)
               (run L (LoopStep :: sched) s).
Proof.
  intros dbs k s sched. cbv zeta. intros Hpc.
  pose proof (laws_of k) as RL.
  pose proof (loop_laws_of dbs k) as LL.
  split; [now apply entry_clears|].
  split; [apply stop_after_CloseRecv|].
  split.
  - apply entry_clears. exact Hpc.
  - change (CallCloseRecv :: LoopStep :: sched)
      with ([CallCloseRecv; LoopStep] ++ sched).
    change (LoopStep :: sched) with ([LoopStep] ++ sched).
    rewrite !run_app. apply sameView_run; [exact _|].
    now apply entry_forgets_stop.
Qed.

(** The owner of the TCP transport calls [CloseRecv] before the goroutine
    has run: the frame that arrives afterwards is still delivered. *)
Lemma entry_reset_overwrites_stop_request_witness :
  let L := loopOf sampleSize TCPData in
  let s := spawn sampleSize sampleTCP [Datagram sampleFrame tt] in
  stopRequested L (run L [CallCloseRecv; LoopStep] s) = false /\
  sameView L
    (run L (CallCloseRecv :: LoopStep :: [LoopStep; LoopStep; LoopStep]) s)
    (run L (LoopStep :: [LoopStep; LoopStep; LoopStep]) s) /\
  count isDelivery
    (trace (run L (CallCloseRecv :: LoopStep :: [LoopStep; LoopStep; LoopStep]) s))
  = 1%nat.
Proof.
  intros L s.
  destruct (entry_reset_overwrites_stop_request sampleSize TCPData s
              [LoopStep; LoopStep; LoopStep] eq_refl) as (_ & _ & H1 & H2).
  split; [exact H1|]. split; [exact H2|]. reflexivity.
Defined.

(** ** The nil end channel *)

(** C10. A loop started on a transport whose end channel is nil, with an
    owner that installs no channel: the loop never returns and never sends;
    once it has left its [for] statement it closes its connection and then
    blocks in the send; and a loop blocked there stays blocked, whatever
    the owner does later, installing a channel included. *)
Theorem nil_end_channel_blocks_termination :
  forall (defaultBufferSize : nat) (k : Loop) (t0 : transportOf k)
         (inp : list (Incoming (senderOf k))) (sched : list Action),
    let L := loopOf defaultBufferSize k in
    let s := run L sched (spawn defaultBufferSize t0 inp) in
    transportEnd (common t0) = None -> installsNoChannel sched = true ->
    pc s <> Terminated /\ count isSend (trace s) = 0%nat /\
    (pc s = Blocked ->
     exists body, trace s = body ++ [EvClose (conn L)] /\ quiet body) /\
    (forall more,
        pc s = AtClose -> installsNoChannel more = true ->
        (2 <= loopSteps more)%nat ->
        pc (run L more s) = Blocked /\
        trace (run L more s) = trace s ++ [EvClose (conn L)]) /\
    (forall more,
        pc s = Blocked ->
        pc (run L more s) = Blocked /\ trace (run L more s) = trace s).
Proof.
  intros dbs k t0 inp sched. cbv zeta. intros Hnil Hsched.
  pose proof (laws_of k) as RL.
  pose proof (loop_laws_of dbs k) as LL.
  set (s := run (loopOf dbs k) sched (spawn dbs t0 inp)).
  destruct (nil_channel_run (loopOf dbs k) sched (spawn dbs t0 inp))
    as [Hend Hpc]; [exact Hnil|discriminate|exact Hsched|].
  fold s in Hend, Hpc.
  assert (Hshape : shutdownShape (loopOf dbs k) s).
  { apply shape_run; [exact _|].
    unfold shutdownShape, spawn. cbn. now split. }
  split; [exact Hpc|]. split; [|split; [|split]].
  - unfold shutdownShape in Hshape.
    destruct (pc s); try (now destruct Hshape); try congruence.
    + destruct Hshape as (body & -> & [Hs Hc]).
      rewrite count_app, Hs. reflexivity.
    + destruct Hshape as (body & -> & [Hs Hc]).
      rewrite count_app, Hs. reflexivity.
  - intros Hb. unfold shutdownShape in Hshape. now rewrite Hb in Hshape.
  - intros more Hc Hm Hn. now apply break_blocks.
  - intros more Hb. now apply blocked_stays.
Qed.

(** The TCP transport without end channel: stopped by the owner, the loop
    closes the connection and blocks; a channel installed afterwards does
    not wake it. *)
Lemma nil_end_channel_blocks_termination_witness :
  let L := loopOf sampleSize TCPData in
  let s := run L [LoopStep; CallCloseRecv; LoopStep; LoopStep]
               (spawn sampleSize sampleTCPNoChannel []) in
  (pc (run L [LoopStep; LoopStep] s) = Blocked /\
   trace (run L [LoopStep; LoopStep] s) = trace s ++ [EvClose DataConn]) /\
  pc (run L [CallSetEndChannel (Some sampleChannel); LoopStep]
          (run L [LoopStep; LoopStep] s)) = Blocked.
Proof.
  intros L s. split.
  - destruct (nil_end_channel_blocks_termination sampleSize TCPData
                sampleTCPNoChannel []
                [LoopStep; CallCloseRecv; LoopStep; LoopStep]
                eq_refl eq_refl) as (_ & _ & _ & H & _).
    apply H; [reflexivity|reflexivity|apply le_n].
  - destruct (nil_end_channel_blocks_termination sampleSize TCPData
                sampleTCPNoChannel []
                [LoopStep; CallCloseRecv; LoopStep; LoopStep; LoopStep; LoopStep]
                eq_refl eq_refl) as (_ & _ & _ & _ & H).
    apply H. reflexivity.
Defined.

(** * Further properties *)

(** ** More about the machine *)

Lemma eqConn_refl (c : ConnId) : eqConn c c = true.
Proof. now destruct c. Qed.

Lemma armed_extend (c : ConnId) (ms : Z) (tr ext : list Event) (p : bool) :
  armedFrom c ms p tr = true ->
  armedFrom c ms p (tr ++ ext) = armedFrom c ms false ext.
Proof.
  revert p. induction tr as [|e tr IH]; intros p H.
  - destruct p; [discriminate|reflexivity].
  - destruct e; cbn [armedFrom app] in *;
      repeat (apply andb_prop in H; destruct H as [H ?]);
      repeat match goal with E : _ = true |- _ => rewrite E; clear E end;
      cbn [andb]; now apply IH.
Qed.

Lemma in_count_pos (p : Event -> bool) (e : Event) (tr : list Event) :
  In e tr -> p e = true -> (1 <= count p tr)%nat.
Proof.
  intros Hin Hp. unfold count.
  assert (H : In e (filter p tr)) by (apply filter_In; now split).
  destruct (filter p tr); [destruct H|cbn; lia].
Qed.

Section FurtherFacts.

Context {T A : Type} {R : TransportRecv T} {RL : TransportRecvLaws T}.
Variable L : RecvLoop T A.
Context {LL : RecvLoopLaws L}.

Lemma armed_deliver (u : Layer) (rp : Packet) :
  armedFrom (conn L) (deadline L) false [deliver L u rp] = true.
Proof.
  pose proof (delivered_deliver (L := L) u rp) as H.
  destruct (deliver L u rp); try discriminate; reflexivity.
Qed.

Lemma armed_polled :
  armedFrom (conn L) (deadline L) false (polled L) = true.
Proof.
  unfold polled. cbn. now rewrite eqConn_refl, Z.eqb_refl.
Qed.

Lemma armed_loop_step (s : State T A) :
  armedFrom (conn L) (deadline L) false (trace s) = true ->
  armedFrom (conn L) (deadline L) false (trace (loop_step L s)) = true.
Proof.
  intros H. unfold loop_step.
  destruct (pc s) as [ | | o | [n a|e] | | | | | rp] eqn:Hp; state_simpl;
    try exact H.
  - destruct (read L (buf s) (input s)) as [[b o] rest]. state_simpl.
    rewrite (armed_extend _ _ _ _ _ H). apply armed_polled.
  - now destruct (get_stop (stopFlag L) (common (tp s))).
  - destruct (construct L (tp s) (buf s) n a) as [rp|rp];
      [destruct (callUpper (tp s)) as [u|]|]; state_simpl; try exact H.
    rewrite (armed_extend _ _ _ _ _ H). apply armed_deliver.
  - now destruct (isTimeout e).
  - now rewrite (armed_extend _ _ _ _ _ H).
  - destruct (transportEnd (common (tp s))) as [ch|]; state_simpl;
      [|exact H].
    now rewrite (armed_extend _ _ _ _ _ H).
Qed.

Lemma armed_run (sched : list Action) (s : State T A) :
  armedFrom (conn L) (deadline L) false (trace s) = true ->
  armedFrom (conn L) (deadline L) false (trace (run L sched s)) = true.
Proof.
  revert s. induction sched as [|a sched IH]; intros s H; [exact H|].
  rewrite run_cons. apply IH.
  destruct a; [now apply armed_loop_step|exact H..].
Qed.

(** Every event on a socket is on the loop's own connection. *)
Lemma own_conn_loop_step (s : State T A) :
  (forall e c, In e (trace s) -> connOf e = Some c -> c = conn L) ->
  forall e c, In e (trace (loop_step L s)) -> connOf e = Some c -> c = conn L.
Proof.
  intros H. unfold loop_step.
  destruct (pc s) as [ | | o | [n a|e0] | | | | | rp] eqn:Hp; state_simpl;
    try exact H.
  - destruct (read L (buf s) (input s)) as [[b o] rest]. state_simpl.
    intros e c Hin Hc. apply in_app_or in Hin.
    destruct Hin as [Hin|[<-|[<-|[]]]]; [now apply (H e)|..];
      cbn in Hc; congruence.
  - now destruct (get_stop (stopFlag L) (common (tp s))).
  - destruct (construct L (tp s) (buf s) n a) as [rp|rp];
      [destruct (callUpper (tp s)) as [u|]|]; state_simpl; try exact H.
    intros e c Hin Hc. apply in_app_or in Hin.
    destruct Hin as [Hin|[<-|[]]]; [now apply (H e)|].
    pose proof (delivered_deliver (L := L) u rp) as Hd.
    destruct (deliver L u rp); discriminate.
  - now destruct (isTimeout e0).
  - intros e c Hin Hc. apply in_app_or in Hin.
    destruct Hin as [Hin|[<-|[]]]; [now apply (H e)|].
    cbn in Hc. congruence.
  - destruct (transportEnd (common (tp s))) as [ch|]; state_simpl;
      [|exact H].
    intros e c Hin Hc. apply in_app_or in Hin.
    destruct Hin as [Hin|[<-|[]]]; [now apply (H e)|]. discriminate.
Qed.

Lemma own_conn_run (sched : list Action) (s : State T A) :
  (forall e c, In e (trace s) -> connOf e = Some c -> c = conn L) ->
  forall e c, In e (trace (run L sched s)) -> connOf e = Some c -> c = conn L.
Proof.
  revert s. induction sched as [|a sched IH]; intros s H; [exact H|].
  rewrite run_cons. apply IH.
  destruct a; [now apply own_conn_loop_step|exact H..].
Qed.

(** With nothing to read and the stop flag unset, three steps of the loop
    are one poll. *)
Lemma poll_once (s : State T A) :
  pc s = AtRead -> input s = [] -> stopRequested L s = false ->
  run L [LoopStep; LoopStep; LoopStep] s =
  mkState (tp s) AtRead (buf s) [] (trace s ++ polled L).
Proof.
  intros Hpc Hin Hstop. cbn [run fold_left step].
  assert (E1 : loop_step L s =
               mkState (tp s) (AtStopTest (Failed errDeadline)) (buf s) []
                       (trace s ++ polled L)).
  { unfold loop_step, read. now rewrite Hpc, Hin. }
  rewrite E1.
  rewrite (step_test_passes L
             (mkState (tp s) (AtStopTest (Failed errDeadline)) (buf s) []
                      (trace s ++ polled L))
             (Failed errDeadline) eq_refl Hstop).
  unfold loop_step. reflexivity.
Qed.

Lemma poll_many (n : nat) (s : State T A) :
  pc s = AtRead -> input s = [] -> stopRequested L s = false ->
  run L (repeat LoopStep (3 * n)) s =
  mkState (tp s) AtRead (buf s) [] (trace s ++ concat (repeat (polled L) n)).
Proof.
  revert s. induction n as [|n IH]; intros s Hpc Hin Hstop.
  - cbn. rewrite app_nil_r. destruct s; cbn in *. now subst.
  - replace (3 * S n)%nat with (3 + 3 * n)%nat by lia.
    rewrite repeat_app, run_app.
    change (repeat LoopStep 3) with [LoopStep; LoopStep; LoopStep].
    rewrite (poll_once s Hpc Hin Hstop).
    rewrite IH by (try reflexivity; exact Hstop).
    state_simpl. cbn [repeat concat]. now rewrite <- app_assoc.
Qed.

End FurtherFacts.

(** ** Receiving chunk after chunk *)

Section InOrder.

Context {T A : Type} {R : TransportRecv T}.
Variable L : RecvLoop T A.
Variable size : nat.
Variable t0 : T.
Variable u : Layer.
Variable pk : list byte -> A -> Packet.
Variable good : list byte -> Prop.

Hypothesis construct_good :
  forall b d a,
    length b = size -> good d ->
    construct L t0 (Go.copy b (firstn size d)) (Go.len (firstn size d)) a =
    Constructed (pk (firstn size d) a).

Hypothesis leftover_good :
  forall d (a : A) rest,
    good d -> leftover (isStream L) size d a rest = rest.

Lemma receive_one (s : State T A) (d : list byte) (a : A)
  (rest : list (Incoming A)) :
  tp s = t0 -> pc s = AtRead -> length (buf s) = size ->
  stopRequested L s = false -> callUpper t0 = Some u ->
  input s = Datagram d a :: rest -> good d ->
  run L [LoopStep; LoopStep; LoopStep] s =
  mkState t0 AtRead (Go.copy (buf s) (firstn size d)) rest
          (trace s ++ polled L ++ [deliver L u (pk (firstn size d) a)]).
Proof.
  intros Htp Hpc Hlen Hstop Hu Hin Hgood. cbn [run fold_left step].
  rewrite (step_read L s d a rest Hpc Hin), Hlen, Htp.
  rewrite leftover_good by exact Hgood.
  set (b := Go.copy (buf s) (firstn size d)).
  set (tr := trace s ++ _).
  assert (Hstop1 : stopRequested L
            (mkState t0 (AtStopTest (Got (Go.len (firstn size d)) a)) b rest tr)
            = false).
  { unfold stopRequested in *. cbn. now rewrite <- Htp. }
  rewrite (step_test_passes L
             (mkState t0 (AtStopTest (Got (Go.len (firstn size d)) a)) b rest tr)
             _ eq_refl Hstop1).
  rewrite (step_deliver L
             (mkState t0 (AtProcess (Got (Go.len (firstn size d)) a)) b rest tr)
             _ a (pk (firstn size d) a) u eq_refl).
  - state_simpl. unfold tr, polled. now rewrite <- app_assoc.
  - cbn. unfold b. now apply construct_good.
  - exact Hu.
Qed.

Lemma receive_all (ds : list (list byte * A)) :
  forall s : State T A,
    tp s = t0 -> pc s = AtRead -> length (buf s) = size ->
    stopRequested L s = false -> callUpper t0 = Some u ->
    input s = map arrival ds -> Forall (fun da => good (fst da)) ds ->
    pc (run L (repeat LoopStep (3 * length ds)) s) = AtRead /\
    tp (run L (repeat LoopStep (3 * length ds)) s) = t0 /\
    input (run L (repeat LoopStep (3 * length ds)) s) = [] /\
    trace (run L (repeat LoopStep (3 * length ds)) s) =
    trace s ++
    concat (map (fun da =>
                   polled L ++ [deliver L u (pk (firstn size (fst da)) (snd da))])
                ds).
Proof.
  induction ds as [|[d a] ds IH]; intros s Htp Hpc Hlen Hstop Hu Hin Hall.
  - cbn. rewrite app_nil_r. auto.
  - cbn [length]. replace (3 * S (length ds))%nat with (3 + 3 * length ds)%nat
      by lia.
    rewrite repeat_app, run_app.
    change (repeat LoopStep 3) with [LoopStep; LoopStep; LoopStep].
    inversion Hall as [|x xs Hg Hrest]; subst x xs. cbn [fst] in Hg.
    rewrite (receive_one s d a (map arrival ds) Htp Hpc Hlen Hstop Hu Hin Hg).
    match goal with |- context [run L _ ?s1] =>
      destruct (IH s1) as (H1 & H2 & H3 & H4) end;
      try reflexivity; auto.
    + cbn. now rewrite copy_length.
    + unfold stopRequested in *. cbn. now rewrite <- Htp.
    + rewrite H1, H2, H3, H4. state_simpl. cbn [map concat fst snd].
      repeat split; auto. now rewrite <- !app_assoc.
Qed.

End InOrder.

(** What the three loops build, in closed form. *)
Lemma construct_packetFor (size : nat) (k : Loop) (t0 : transportOf k)
  (b d : list byte) (a : senderOf k) :
  peerKnown k t0 = true -> length b = size -> fits k size d = true ->
  construct (loopOf size k) t0 (Go.copy b (firstn size d))
            (Go.len (firstn size d)) a =
  Constructed (packetFor size k t0 (firstn size d) a).
Proof.
  intros Hpeer Hb Hfit.
  set (d' := firstn size d).
  assert (Hd' : (length d' <= size)%nat) by (unfold d'; apply firstn_le_length).
  assert (Hcopy : Go.copy b d' = d' ++ skipn (length d') b)
    by (apply copy_fits; now rewrite Hb).
  assert (Hslice : Go.slice (Go.copy b d') 0 (Go.len d') = Some d').
  { rewrite slice_prefix.
    - unfold Go.len. rewrite Nat2Z.id, Hcopy. now rewrite firstn_exact.
    - unfold Go.len. rewrite copy_length. lia. }
  destruct k; unfold fits, peerKnown in *;
    cbn [construct loopOf packetFor TransportTCP.readDataPacket
         TransportMulticast.readDataPacket TransportMulticast.readCtrlPacket].
  - destruct (TransportTCP.remoteAddrRtp t0) as [r|] eqn:Hr; [|discriminate].
    apply andb_prop in Hfit. destruct Hfit as [H2 Hsz].
    apply Nat.leb_le in H2, Hsz.
    assert (Hall : d' = d) by (unfold d'; now apply firstn_all2).
    rewrite Hall in *.
    unfold TransportTCP.construct. rewrite Hr.
    rewrite slice_ok;
      [|unfold Go.len; lia|unfold Go.len; rewrite copy_length; lia].
    assert (Hpay : firstn (Z.to_nat (Go.len d - 2))
                          (skipn (Z.to_nat 2) (Go.copy b d)) = skipn 2 d).
    { rewrite Hcopy. change (Z.to_nat 2) with 2%nat.
      rewrite skipn_app.
      replace (2 - length d)%nat with 0%nat by lia. cbn [skipn].
      replace (Z.to_nat (Go.len d - 2)) with (length (skipn 2 d))
        by (rewrite length_skipn; unfold Go.len; lia).
      apply firstn_exact. }
    rewrite Hpay.
    unfold set_buffer, set_inUse, set_CtrlPort, set_DataPort, set_IpAddr,
      newDataPacket. cbn [buffer fromAddr inUse IpAddr DataPort CtrlPort].
    rewrite copy_into_fresh; [reflexivity|].
    rewrite length_skipn. lia.
  - unfold TransportMulticast.constructData. fold d'. rewrite Hslice.
    unfold set_buffer, set_inUse, set_CtrlPort, set_DataPort, set_IpAddr,
      newDataPacket. cbn [buffer fromAddr inUse IpAddr DataPort CtrlPort].
    now rewrite copy_into_fresh.
  - unfold TransportMulticast.constructCtrl. fold d'. rewrite Hslice.
    unfold set_buffer, set_inUse, set_CtrlPort, set_DataPort, set_IpAddr,
      newCtrlPacket. cbn [fst buffer fromAddr inUse IpAddr DataPort CtrlPort].
    now rewrite copy_into_fresh.
Qed.

Lemma leftover_fitting (size : nat) (k : Loop) (d : list byte)
  (a : senderOf k) (rest : list (Incoming (senderOf k))) :
  fits k size d = true ->
  leftover (isStream (loopOf size k)) size d a rest = rest.
Proof.
  intros Hfit. destruct k; unfold fits in Hfit;
    cbn [isStream loopOf TransportTCP.readDataPacket
         TransportMulticast.readDataPacket TransportMulticast.readCtrlPacket].
  - apply andb_prop in Hfit. destruct Hfit as [_ Hsz].
    apply Nat.leb_le in Hsz. now apply leftover_fits.
  - unfold leftover. now destruct (skipn size d).
  - unfold leftover. now destruct (skipn size d).
Qed.

(** ** Where a panic comes from *)

Section PanicOrigin.

Context {T A : Type} {R : TransportRecv T} {RL : TransportRecvLaws T}.
Variable L : RecvLoop T A.
Context {LL : RecvLoopLaws L}.
Variable size : nat.
Variable t0 : T.
Variable inp : list (Incoming A).

Lemma panic_origin_step (a : Action) (s : State T A) :
  provenance L size t0 inp s ->
  (forall rp, pc s = Panicked rp ->
     exists b n ad, construct L t0 b n ad = Panics rp /\
                    length b = size /\ 0 <= n <= Go.len b) ->
  forall rp, pc (step L a s) = Panicked rp ->
     exists b n ad, construct L t0 b n ad = Panics rp /\
                    length b = size /\ 0 <= n <= Go.len b.
Proof.
  intros (Hcon & _ & Hlen & Hn & _) Hpc rp.
  destruct a; simpl; try apply Hpc.
  unfold loop_step.
  destruct (pc s) as [ | | o | [n ad|e] | | | | | rp'] eqn:Hp;
    state_simpl; try discriminate.
  - now destruct (read L (buf s) (input s)) as [[b o] rest].
  - now destruct (get_stop (stopFlag L) (common (tp s))).
  - destruct Hn as [_ Hn].
    destruct (construct L (tp s) (buf s) n ad) as [rp1|rp1] eqn:Hc.
    + now destruct (callUpper (tp s)).
    + state_simpl. intros H. inversion H; subst rp1.
      exists (buf s), n, ad. rewrite <- Hcon. auto.
  - now destruct (isTimeout e).
  - now destruct (transportEnd (common (tp s))).
  - rewrite Hp. discriminate.
  - rewrite Hp. discriminate.
  - rewrite Hp. apply Hpc.
Qed.

Lemma panic_origin_run (sched : list Action) (s : State T A) :
  provenance L size t0 inp s ->
  (forall rp, pc s = Panicked rp ->
     exists b n ad, construct L t0 b n ad = Panics rp /\
                    length b = size /\ 0 <= n <= Go.len b) ->
  forall rp, pc (run L sched s) = Panicked rp ->
     exists b n ad, construct L t0 b n ad = Panics rp /\
                    length b = size /\ 0 <= n <= Go.len b.
Proof.
  revert s. induction sched as [|a sched IH]; intros s Hprov Hpc rp;
    [apply Hpc|].
  rewrite run_cons. apply IH.
  - change (step L a s) with (run L [a] s). now apply provenance_run.
  - now apply panic_origin_step.
Qed.

End PanicOrigin.

Lemma fresh_copy_tail (size : nat) (src : list byte) (k : Z) :
  Go.len src = k -> (length src <= size)%nat ->
  skipn (Z.to_nat k) (Go.copy (repeat x00 size) src) =
  repeat x00 (size - Z.to_nat k).
Proof.
  intros Hk Hle. rewrite copy_into_fresh by exact Hle.
  unfold Go.len in Hk. subst k. rewrite Nat2Z.id.
  rewrite skipn_app, skipn_all, Nat.sub_diag. reflexivity.
Qed.

(** The buffer of a packet a loop has built: of the shared size, zero
    beyond [inUse]. *)
Lemma constructed_buffer (size : nat) (k : Loop) (t0 : transportOf k)
  (b : list byte) (n : Z) (a : senderOf k) (rp : Packet) :
  construct (loopOf size k) t0 b n a = Constructed rp -> length b = size ->
  0 <= inUse rp <= capacity rp /\ capacity rp = Z.of_nat size /\
  skipn (Z.to_nat (inUse rp)) (buffer rp) =
  repeat x00 (size - Z.to_nat (inUse rp)).
Proof.
  intros Hc Hb.
  assert (Hgen : forall lo src,
            Go.slice b lo n = Some src ->
            buffer rp = Go.copy (repeat x00 size) src -> inUse rp = n - lo ->
            0 <= inUse rp <= capacity rp /\ capacity rp = Z.of_nat size /\
            skipn (Z.to_nat (inUse rp)) (buffer rp) =
            repeat x00 (size - Z.to_nat (inUse rp))).
  { intros lo src Hs Hbuf Hin.
    destruct (slice_some _ _ _ _ Hs) as (H0 & H1 & _ & Hl).
    assert (Hle : (length src <= size)%nat) by (unfold Go.len in *; lia).
    unfold capacity. rewrite Hbuf, Hin.
    split; [|split].
    - unfold Go.len in *. rewrite copy_length, repeat_length. lia.
    - unfold Go.len. now rewrite copy_length, repeat_length.
    - now apply fresh_copy_tail. }
  destruct k;
    cbn [construct loopOf TransportTCP.readDataPacket
         TransportMulticast.readDataPacket TransportMulticast.readCtrlPacket]
      in Hc.
  - unfold TransportTCP.construct in Hc.
    destruct (TransportTCP.remoteAddrRtp t0); [|discriminate].
    destruct (Go.slice b 2 n) as [src|] eqn:Hs; [|discriminate].
    inversion Hc; subst rp. now apply (Hgen 2 src).
  - unfold TransportMulticast.constructData in Hc.
    destruct (Go.slice b 0 n) as [src|] eqn:Hs; [|discriminate].
    inversion Hc; subst rp. apply (Hgen 0 src); auto. cbn. lia.
  - unfold TransportMulticast.constructCtrl in Hc.
    destruct (Go.slice b 0 n) as [src|] eqn:Hs; [|discriminate].
    inversion Hc; subst rp. apply (Hgen 0 src); auto. cbn. lia.
Qed.

(** Why a loop panics while it fills a packet. *)
Lemma panics_cause (size : nat) (k : Loop) (t0 : transportOf k)
  (b : list byte) (n : Z) (a : senderOf k) (rp : Packet) :
  construct (loopOf size k) t0 b n a = Panics rp -> 0 <= n <= Go.len b ->
  k = TCPData /\
  (peerKnown k t0 = false \/ (n < 2 /\ inUse rp = n - 2)).
Proof.
  intros Hc Hn.
  destruct k;
    cbn [construct loopOf TransportTCP.readDataPacket
         TransportMulticast.readDataPacket TransportMulticast.readCtrlPacket]
      in Hc.
  - split; [reflexivity|]. unfold TransportTCP.construct in Hc.
    unfold peerKnown.
    destruct (TransportTCP.remoteAddrRtp t0); [|now left].
    right. destruct (Go.slice b 2 n) as [src|] eqn:Hs; [discriminate|].
    inversion Hc; subst rp. cbn. split; [|reflexivity].
    destruct (Z_lt_le_dec n 2) as [Hlt|Hge]; [exact Hlt|].
    rewrite slice_ok in Hs by lia. discriminate.
  - unfold TransportMulticast.constructData in Hc.
    rewrite slice_prefix in Hc by exact Hn. discriminate.
  - unfold TransportMulticast.constructCtrl in Hc.
    rewrite slice_prefix in Hc by exact Hn. discriminate.
Qed.

(** ** A loop from its start *)

Lemma packetFor_set_common (size : nat) (k : Loop) (c : TransportCommon)
  (t0 : transportOf k) (d : list byte) (a : senderOf k) :
  packetFor size k (set_common c t0) d a = packetFor size k t0 d a.
Proof. now destruct k. Qed.

Lemma peerKnown_set_common (k : Loop) (c : TransportCommon)
  (t0 : transportOf k) :
  peerKnown k (set_common c t0) = peerKnown k t0.
Proof. now destruct k. Qed.

(** A loop started on a socket that holds the chunks [ds], each of which
    fits: after its entry and three steps for each chunk it has handed
    them all upwards, in order. *)
Lemma spawn_receives (size : nat) (k : Loop) (t0 : transportOf k) (u : Layer)
  (ds : list (list byte * senderOf k)) :
  callUpper t0 = Some u -> peerKnown k t0 = true ->
  forallb (fun da => fits k size (fst da)) ds = true ->
  pc (run (loopOf size k) (LoopStep :: repeat LoopStep (3 * length ds))
          (spawn size t0 (map arrival ds))) = AtRead /\
  input (run (loopOf size k) (LoopStep :: repeat LoopStep (3 * length ds))
             (spawn size t0 (map arrival ds))) = [] /\
  trace (run (loopOf size k) (LoopStep :: repeat LoopStep (3 * length ds))
             (spawn size t0 (map arrival ds))) =
  concat (map (received size k t0 u) ds).
Proof.
  intros Hu Hpeer Hfit.
  pose proof (laws_of k) as RL.
  rewrite run_cons. cbn [step].
  rewrite (step_entry (loopOf size k)) by reflexivity.
  cbn [tp buf input trace spawn].
  set (t1 := set_common _ t0).
  destruct (receive_all (loopOf size k) size t1 u (packetFor size k t1)
              (fun d => fits k size d = true)) with
      (ds := ds)
      (s := mkState t1 AtRead (newBuf size) (map arrival ds) [])
    as (H1 & _ & H3 & H4).
  - intros b d a Hb Hd. apply construct_packetFor; auto.
    unfold t1. now rewrite peerKnown_set_common.
  - intros d a rest Hd. now apply leftover_fitting.
  - reflexivity.
  - reflexivity.
  - apply repeat_length.
  - unfold stopRequested, t1. cbn [tp].
    now rewrite common_set_common, get_set_stop.
  - unfold t1. now rewrite callUpper_set_common.
  - reflexivity.
  - apply Forall_forall. intros da Hda.
    rewrite forallb_forall in Hfit. now apply Hfit.
  - split; [exact H1|]. split; [exact H3|].
    rewrite H4. cbn [trace app]. f_equal.
    apply map_ext. intros da. unfold received, polled, t1.
    now rewrite packetFor_set_common.
Qed.

Lemma panicked_stays {T A : Type} {R : TransportRecv T} (L : RecvLoop T A)
  (sched : list Action) (s : State T A) (rp : Packet) :
  pc s = Panicked rp ->
  pc (run L sched s) = Panicked rp /\ trace (run L sched s) = trace s.
Proof.
  revert s. induction sched as [|a sched IH]; intros s H; [now auto|].
  rewrite run_cons.
  assert (Hs : pc (step L a s) = Panicked rp /\ trace (step L a s) = trace s).
  { destruct a; simpl; auto. unfold loop_step. rewrite H. auto. }
  destruct Hs as [Hp Ht]. destruct (IH _ Hp) as [IH1 IH2].
  now rewrite IH1, IH2, Ht.
Qed.

(** ** What a delivered packet holds *)

(** X1. The read buffer of a loop is reused from one iteration to the
    next, the packet is not: whichever loop runs, on whatever input and
    schedule, a packet handed to the upper layer has a buffer of the shared
    size, [inUse] lies within it, and every byte beyond [inUse] is zero, so
    no byte of an earlier, longer read shows in a later packet. *)
Theorem delivered_buffer_clean_beyond_inUse :
  forall (defaultBufferSize : nat) (k : Loop) (t0 : transportOf k)
         (inp : list (Incoming (senderOf k))) (sched : list Action)
         (e : Event) (rp : Packet),
    In e (trace (run (loopOf defaultBufferSize k) sched
                     (spawn defaultBufferSize t0 inp))) ->
    delivered e = Some rp ->
    0 <= inUse rp <= capacity rp /\
    capacity rp = Z.of_nat defaultBufferSize /\
    skipn (Z.to_nat (inUse rp)) (buffer rp) =
    repeat x00 (defaultBufferSize - Z.to_nat (inUse rp)).
Proof.
  intros dbs k t0 inp sched e rp Hin Hd.
  pose proof (laws_of k) as RL.
  pose proof (loop_laws_of dbs k) as LL.
  destruct (deliveries_built _ _ _ _ _ _ _ Hin Hd)
    as (u & b & n & a & _ & Hc & _ & Hb & _).
  exact (constructed_buffer dbs k t0 b n a rp Hc Hb).
Qed.

(** The TCP loop reads a frame of three bytes and then one of a single
    byte: the read buffer still holds two bytes of the first frame, the
    second packet does not. *)
Lemma delivered_buffer_clean_beyond_inUse_witness :
  let s := run (loopOf sampleSize TCPData) (repeat LoopStep 7)
               (spawn sampleSize sampleTCP
                      [Datagram sampleFrame tt;
                       Datagram [x00; x01; x7a] tt]) in
  let rp := mkPacket (mkAddress [x0a; x00; x00; x01] 40000 0)
                     [x7a; x00; x00; x00; x00; x00; x00; x00] 1 in
  buf s = [x00; x01; x7a; x62; x63; x00; x00; x00] /\
  0 <= inUse rp <= capacity rp /\
  capacity rp = Z.of_nat sampleSize /\
  skipn (Z.to_nat (inUse rp)) (buffer rp) =
  repeat x00 (sampleSize - Z.to_nat (inUse rp)).
Proof.
  intros s rp. split; [reflexivity|].
  apply (delivered_buffer_clean_beyond_inUse sampleSize TCPData sampleTCP
           [Datagram sampleFrame tt; Datagram [x00; x01; x7a] tt]
           (repeat LoopStep 7) (EvOnRecvData Self rp) rp).
  - vm_compute. do 5 right. left. reflexivity.
  - reflexivity.
Defined.

(** ** Panics *)

(** X2. A loop panics only in one place: the TCP loop, while it fills the
    packet, when the address of the peer is nil or the read returned fewer
    than the two bytes of the frame header, which leaves [inUse] at -2 or
    -1.  The multicast loops never panic.  A panicked loop has closed
    nothing and signalled nothing, and no later call of the owner changes
    that. *)
Theorem loop_panics_only_on_short_tcp_read :
  forall (defaultBufferSize : nat) (k : Loop) (t0 : transportOf k)
         (inp : list (Incoming (senderOf k))) (sched : list Action)
         (rp : Packet),
    let L := loopOf defaultBufferSize k in
    let s := run L sched (spawn defaultBufferSize t0 inp) in
    pc s = Panicked rp ->
    k = TCPData /\
    (peerKnown k t0 = false \/ -2 <= inUse rp < 0) /\
    quiet (trace s) /\
    forall more,
      pc (run L more s) = Panicked rp /\ trace (run L more s) = trace s.
Proof.
  intros dbs k t0 inp sched rp. cbv zeta. intros Hpc.
  pose proof (laws_of k) as RL.
  pose proof (loop_laws_of dbs k) as LL.
  destruct (panic_origin_run (loopOf dbs k) dbs t0 inp sched
              (spawn dbs t0 inp) (provenance_spawn _ dbs t0 inp))
    with (rp := rp) as (b & n & a & Hc & Hb & Hn).
  - intros rp0 H. discriminate H.
  - exact Hpc.
  - destruct (panics_cause dbs k t0 b n a rp Hc Hn) as [Hk Hwhy].
    split; [exact Hk|]. split; [|split].
    + destruct Hwhy as [Hwhy|[Hlt Hin]]; [now left|right].
      clear - Hlt Hin Hn. lia.
    + assert (Hshape : shutdownShape (loopOf dbs k)
                         (run (loopOf dbs k) sched (spawn dbs t0 inp))).
      { apply shape_run; [exact _|].
        unfold shutdownShape, spawn. cbn. now split. }
      unfold shutdownShape in Hshape. now rewrite Hpc in Hshape.
    + intros more. now apply panicked_stays.
Qed.

(** The TCP loop reads a single byte. *)
Lemma loop_panics_only_on_short_tcp_read_witness :
  let L := loopOf sampleSize TCPData in
  let s := run L (repeat LoopStep 4)
               (spawn sampleSize sampleTCP [Datagram [x00] tt]) in
  let rp := mkPacket (mkAddress [x0a; x00; x00; x01] 40000 0)
                     (repeat x00 sampleSize) (-1) in
  pc s = Panicked rp /\
  (peerKnown TCPData sampleTCP = false \/ -2 <= inUse rp < 0) /\
  quiet (trace s) /\
  pc (run L [CallSetEndChannel (Some sampleChannel); LoopStep] s) = Panicked rp.
Proof.
  intros L s rp. split; [reflexivity|].
  destruct (loop_panics_only_on_short_tcp_read sampleSize TCPData sampleTCP
              [Datagram [x00] tt] (repeat LoopStep 4) rp eq_refl)
    as (_ & H1 & H2 & H3).
  split; [exact H1|]. split; [exact H2|].
  exact (proj1 (H3 [CallSetEndChannel (Some sampleChannel); LoopStep])).
Defined.

(** ** Setting up the multicast transport *)


(** X4. [ListenOnTransports] of the other copy, which binds with
    [net.ListenMulticastUDP]: only a failure to bind is returned, unwrapped,
    and it stores the nil connection in [dataConn] and starts nothing; once
    bound, the loop is started and nil is returned whatever
    [setReuseAddr] and [SetTOS] answer, each failure printing one line.  So
    where [SO_REUSEADDR] is refused the two copies disagree: this one
    starts the loop, the other one starts nothing. *)
Theorem multicast_second_listen_outcomes :
  forall (os : TransportMulticast.Env) (tp0 : TransportMulticast.t),
    let r := TransportMulticast.ListenOnTransports_second os tp0 in
    let bound :=
      TransportMulticast.ListenMulticastUDP os
        (TransportMulticast.localAddrRtp tp0) in
    (TransportMulticast.err r = None <->
     TransportMulticast.started r = [GoReadDataPacket]) /\
    (TransportMulticast.err r = None <-> exists c, bound = inl c) /\
    (forall e, bound = inr e ->
               TransportMulticast.err r = Some e /\
               TransportMulticast.started r = [] /\
               TransportMulticast.dataConn (TransportMulticast.after r) = None) /\
    (forall c, bound = inl c ->
               TransportMulticast.dataConn (TransportMulticast.after r) = Some c /\
               length (TransportMulticast.printed r) =
               ((match TransportMulticast.setReuseAddr os with
                 | Some _ => 1 | None => 0 end) +
                (match TransportMulticast.SetTOS os with
                 | Some _ => 1 | None => 0 end))%nat) /\
    (forall c e, bound = inl c ->
                 TransportMulticast.SetsockoptInt os = Some e ->
                 TransportMulticast.started r = [GoReadDataPacket] /\
                 TransportMulticast.started
                   (TransportMulticast.ListenOnTransports os tp0) = []).
Proof.
  intros os tp0. cbv zeta.
  unfold TransportMulticast.ListenOnTransports_second.
  destruct (TransportMulticast.ListenMulticastUDP os _) as [c|e0]; cbn.
  - split; [tauto|]. split; [split; [now exists c|reflexivity]|].
    split; [discriminate|]. split.
    + intros c' H. inversion H; subst c'. split; [reflexivity|].
      rewrite length_app.
      now destruct (TransportMulticast.setReuseAddr os),
                   (TransportMulticast.SetTOS os).
    + intros c' e _ He. split; [reflexivity|].
      unfold TransportMulticast.ListenOnTransports,
        TransportMulticast.lcListenPacket, TransportMulticast.Control.
      now rewrite He.
  - split; [split; discriminate|].
    split; [split; [discriminate|intros [c H]; discriminate H]|].
    split; [|split; discriminate].
    intros e H. inversion H; subst e. auto.
Qed.

(** ** Setting up the TCP transport *)

(** X5. The goroutine that [ListenOnTransports] of the TCP transport
    starts has three outcomes.  It returns with the transport untouched and
    nothing started exactly when [ListenTCP] fails.  It panics exactly when
    the listener is bound and [AcceptTCP] fails, since the error is not
    looked at and the nil connection is used.  It starts [readDataPacket]
    exactly when both succeed, and then [dataConn] is the accepted
    connection and [remoteAddrRtp] what [ResolveTCPAddr] made of its peer
    (nil when that failed); the stop flags, the end channel and the upper
    layer are as before. *)
Theorem tcp_listener_outcomes :
  forall (os : TransportTCP.Env) (tp0 : TransportTCP.t),
    let bound := TransportTCP.ListenTCP os (TransportTCP.localAddrRtp tp0) in
    (TransportTCP.listener os tp0 = TransportTCP.ListenerReturns tp0 [] <->
     exists e, bound = inr e) /\
    ((exists tp1, TransportTCP.listener os tp0 = TransportTCP.ListenerPanics tp1)
     <-> exists ln e, bound = inl ln /\ TransportTCP.AcceptTCP os ln = inr e) /\
    (forall tp1,
        TransportTCP.listener os tp0 =
        TransportTCP.ListenerReturns tp1 [GoReadDataPacket] <->
        exists ln c raddr,
          bound = inl ln /\ TransportTCP.AcceptTCP os ln = inl (c, raddr) /\
          tp1 = TransportTCP.set_remoteAddrRtp
                  (TransportTCP.ResolveTCPAddr os raddr)
                  (TransportTCP.set_dataConn (Some c) tp0)) /\
    (forall tp1 gs,
        TransportTCP.listener os tp0 = TransportTCP.ListenerReturns tp1 gs ->
        gs = [] \/ gs = [GoReadDataPacket]) /\
    (forall tp1 gs,
        TransportTCP.listener os tp0 = TransportTCP.ListenerReturns tp1 gs ->
        TransportTCP.Common tp1 = TransportTCP.Common tp0 /\
        TransportTCP.callUpper tp1 = TransportTCP.callUpper tp0).
Proof.
  intros os tp0. cbv zeta. unfold TransportTCP.listener.
  destruct (TransportTCP.ListenTCP os _) as [ln|e0].
  - destruct (TransportTCP.AcceptTCP os ln) as [[c raddr]|e1] eqn:Hacc.
    + split; [|split; [|split; [|split]]].
      * split; [discriminate|]. intros [e H]. discriminate H.
      * split; [intros [tp1 H]; discriminate H|].
        intros (ln' & e & H1 & H2). inversion H1; subst ln'. congruence.
      * intros tp1. split.
        -- intros H. inversion H. now exists ln, c, raddr.
        -- intros (ln' & c' & raddr' & H1 & H2 & ->).
           inversion H1; subst ln'. rewrite Hacc in H2.
           now inversion H2.
      * intros tp1 gs H. inversion H. now right.
      * intros tp1 gs H. inversion H. now split.
    + split; [|split; [|split; [|split]]].
      * split; [discriminate|]. intros [e H]. discriminate H.
      * split; [|now eexists]. intros _. now exists ln, e1.
      * intros tp1. split; [discriminate|].
        intros (ln' & c' & raddr' & H1 & H2 & _).
        inversion H1; subst ln'. congruence.
      * intros tp1 gs H. discriminate H.
      * intros tp1 gs H. discriminate H.
  - split; [|split; [|split; [|split]]].
    + split; [|reflexivity]. intros _. now exists e0.
    + split; [intros [tp1 H]; discriminate H|].
      intros (ln & e & H & _). discriminate H.
    + intros tp1. split; [discriminate|].
      intros (ln & c & raddr & H & _). discriminate H.
    + intros tp1 gs H. inversion H. now left.
    + intros tp1 gs H. inversion H. now split.
Qed.

(** X6. From the listener to the upper layer: when the goroutine of
    [ListenOnTransports] started [readDataPacket], every packet that loop
    hands upwards, on whatever input and schedule, names as its sender the
    address that [ResolveTCPAddr] made of the accepted connection's peer,
    with the control port zero; in particular nothing is ever delivered
    when [ResolveTCPAddr] failed. *)
Theorem tcp_packets_name_the_accepted_peer :
  forall (defaultBufferSize : nat) (os : TransportTCP.Env)
         (tp0 tp1 : TransportTCP.t) (gs : list Goroutine)
         (inp : list (Incoming unit)) (sched : list Action)
         (e : Event) (rp : Packet),
    TransportTCP.listener os tp0 = TransportTCP.ListenerReturns tp1 gs ->
    In GoReadDataPacket gs ->
    In e (trace (run (TransportTCP.readDataPacket defaultBufferSize) sched
                     (spawn defaultBufferSize tp1 inp))) ->
    delivered e = Some rp ->
    exists ln c raddr r,
      gs = [GoReadDataPacket] /\
      TransportTCP.ListenTCP os (TransportTCP.localAddrRtp tp0) = inl ln /\
      TransportTCP.AcceptTCP os ln = inl (c, raddr) /\
      TransportTCP.ResolveTCPAddr os raddr = Some r /\
      TransportTCP.dataConn tp1 = Some c /\
      fromAddr rp = mkAddress (tcpIP r) (tcpPort r) 0.
Proof.
  intros dbs os tp0 tp1 gs inp sched e rp Hl Hgo Hin Hd.
  destruct (deliveries_built
              (TransportTCP.readDataPacket dbs) dbs tp1 inp sched e rp Hin Hd)
    as (u & b & n & a & _ & Hc & _ & Hb & _).
  destruct a. cbn in Hc.
  destruct (tcp_constructed dbs tp1 b n rp Hc Hb) as ([r [Hr Hf]] & _).
  unfold TransportTCP.listener in Hl.
  destruct (TransportTCP.ListenTCP os _) as [ln|e0] eqn:Hln.
  - destruct (TransportTCP.AcceptTCP os ln) as [[c raddr]|e1] eqn:Hacc;
      [|discriminate].
    inversion Hl; subst tp1 gs. cbn in Hr.
    exists ln, c, raddr, r. repeat split; auto.
  - inversion Hl; subst tp1 gs. destruct Hgo.
Qed.

(** A listener on [sampleAccepting] accepts 10.0.0.1:40000, and the loop it
    starts then reads [sampleFrame]. *)
Lemma tcp_packets_name_the_accepted_peer_witness :
  let tp0 := fst (TransportTCP.NewTransportTCP [x7f; x00; x00; x01] 5004) in
  let rp := mkPacket (mkAddress [x0a; x00; x00; x01] 40000 0)
                     [x61; x62; x63; x00; x00; x00; x00; x00] 3 in
  exists ln c raddr r,
    [GoReadDataPacket] = [GoReadDataPacket] /\
    TransportTCP.ListenTCP sampleAccepting (TransportTCP.localAddrRtp tp0)
    = inl ln /\
    TransportTCP.AcceptTCP sampleAccepting ln = inl (c, raddr) /\
    TransportTCP.ResolveTCPAddr sampleAccepting raddr = Some r /\
    TransportTCP.dataConn
      (TransportTCP.set_remoteAddrRtp
         (Some (mkTCPAddr [x0a; x00; x00; x01] 40000))
         (TransportTCP.set_dataConn (Some 5%nat) tp0)) = Some c /\
    fromAddr rp = mkAddress (tcpIP r) (tcpPort r) 0.
Proof.
  intros tp0 rp.
  apply (tcp_packets_name_the_accepted_peer sampleSize sampleAccepting tp0
           (TransportTCP.set_remoteAddrRtp
              (Some (mkTCPAddr [x0a; x00; x00; x01] 40000))
              (TransportTCP.set_dataConn (Some 5%nat) tp0))
           [GoReadDataPacket] [Datagram sampleFrame tt] (repeat LoopStep 4)
           (EvOnRecvData Self rp) rp).
  - reflexivity.
  - left. reflexivity.
  - vm_compute. do 2 right. left. reflexivity.
  - reflexivity.
Defined.


(** [SO_REUSEADDR] is refused: the second copy starts the loop all the
    same, the first copy starts nothing. *)
Lemma multicast_second_listen_outcomes_witness :
  let tp0 :=
    fst (TransportMulticast.NewTransportMulticast [xe0; x00; x00; x01] 5004) in
  TransportMulticast.started
    (TransportMulticast.ListenOnTransports_second sampleNoReuse tp0)
  = [GoReadDataPacket] /\
  TransportMulticast.started
    (TransportMulticast.ListenOnTransports sampleNoReuse tp0) = [].
Proof.
  intros tp0.
  destruct (multicast_second_listen_outcomes sampleNoReuse tp0)
    as (_ & _ & _ & _ & H).
  exact (H 3%nat errPerm eq_refl eq_refl).
Defined.

(** The port is taken: the goroutine returns and starts nothing; on
    [sampleAccepting] it starts the loop. *)
Lemma tcp_listener_outcomes_witness :
  let tp0 := fst (TransportTCP.NewTransportTCP [x7f; x00; x00; x01] 5004) in
  TransportTCP.listener samplePortTaken tp0 = TransportTCP.ListenerReturns tp0 [] /\
  TransportTCP.listener sampleAccepting tp0 =
  TransportTCP.ListenerReturns
    (TransportTCP.set_remoteAddrRtp
       (Some (mkTCPAddr [x0a; x00; x00; x01] 40000))
       (TransportTCP.set_dataConn (Some 5%nat) tp0))
    [GoReadDataPacket].
Proof.
  intros tp0. split.
  - apply (proj1 (tcp_listener_outcomes samplePortTaken tp0)).
    now exists errAddrInUse.
  - destruct (tcp_listener_outcomes sampleAccepting tp0) as (_ & _ & H & _).
    apply H. exists 4%nat, 5%nat, (mkTCPAddr [x0a; x00; x00; x01] 40000).
    repeat split.
Defined.

(** ** Writing *)

(** X7. [WriteDataTo] and [WriteCtrlTo] of the multicast transport panic
    exactly when [inUse] lies outside the packet's buffer, before anything
    is sent; otherwise they send [inUse] bytes.  A packet that a receive
    loop handed upwards can therefore always be written back, while a
    packet with the negative [inUse] of a short TCP read cannot. *)
Theorem multicast_write_panics_iff_inUse_outside_buffer :
  forall (tp0 : TransportMulticast.t) (rp : Packet) (addr : Address),
    (TransportMulticast.WriteDataTo tp0 rp addr = None <->
     inUse rp < 0 \/ capacity rp < inUse rp) /\
    (TransportMulticast.WriteCtrlTo tp0 rp addr = None <->
     inUse rp < 0 \/ capacity rp < inUse rp) /\
    (forall c b dst,
        TransportMulticast.WriteDataTo tp0 rp addr = Some (EvWriteToUDP c b dst) ->
        Go.len b = inUse rp /\ b = firstn (Z.to_nat (inUse rp)) (buffer rp)) /\
    (forall (defaultBufferSize : nat) (k : Loop) (t0 : transportOf k)
            (inp : list (Incoming (senderOf k))) (sched : list Action)
            (e : Event),
        In e (trace (run (loopOf defaultBufferSize k) sched
                         (spawn defaultBufferSize t0 inp))) ->
        delivered e = Some rp ->
        TransportMulticast.WriteDataTo tp0 rp addr <> None).
Proof.
  intros tp0 rp addr.
  assert (Hiff : Go.slice (buffer rp) 0 (inUse rp) = None <->
                 inUse rp < 0 \/ capacity rp < inUse rp).
  { split.
    - intros H.
      destruct (Z_lt_le_dec (inUse rp) 0) as [|H0]; [now left|].
      destruct (Z_lt_le_dec (capacity rp) (inUse rp)) as [|H1]; [now right|].
      rewrite slice_prefix in H by (unfold capacity in H1; lia).
      discriminate.
    - intros H. destruct (Go.slice (buffer rp) 0 (inUse rp)) eqn:Hs; [|easy].
      destruct (slice_some _ _ _ _ Hs) as (G0 & G1 & G2 & _).
      unfold capacity in H. lia. }
  unfold TransportMulticast.WriteDataTo, TransportMulticast.WriteCtrlTo.
  split; [|split; [|split]].
  - destruct (Go.slice (buffer rp) 0 (inUse rp)) eqn:Hs.
    + split; [discriminate|]. intros H. apply Hiff in H. discriminate.
    + split; [intros _; now apply Hiff|reflexivity].
  - destruct (Go.slice (buffer rp) 0 (inUse rp)) eqn:Hs.
    + split; [discriminate|]. intros H. apply Hiff in H. discriminate.
    + split; [intros _; now apply Hiff|reflexivity].
  - intros c b dst H.
    destruct (Go.slice (buffer rp) 0 (inUse rp)) as [b0|] eqn:Hs;
      [|discriminate].
    inversion H; subst b0; clear H.
    destruct (slice_some _ _ _ _ Hs) as (G0 & G1 & G2 & Hl).
    split; [lia|].
    rewrite slice_prefix in Hs by lia. now inversion Hs.
  - intros dbs k t0 inp sched e Hin Hd.
    pose proof (laws_of k) as RL.
    pose proof (loop_laws_of dbs k) as LL.
    destruct (deliveries_built _ _ _ _ _ _ _ Hin Hd)
      as (u & b & n & a & _ & Hc & _ & Hb & _).
    destruct (constructed_buffer dbs k t0 b n a rp Hc Hb) as (Hr & _).
    rewrite slice_prefix by (unfold capacity in Hr; lia). discriminate.
Qed.

(** The packet a TCP loop panicked on cannot be written; the packet made of
    [sampleFrame] can. *)
Lemma multicast_write_panics_iff_inUse_outside_buffer_witness :
  let bad := mkPacket (mkAddress [x0a; x00; x00; x01] 40000 0)
                      (repeat x00 sampleSize) (-1) in
  let good := mkPacket (mkAddress [x0a; x00; x00; x01] 40000 0)
                       [x61; x62; x63; x00; x00; x00; x00; x00] 3 in
  let addr := mkAddress [xc0; xa8; x00; x02] 6000 6001 in
  TransportMulticast.WriteDataTo sampleMulticast bad addr = None /\
  TransportMulticast.WriteDataTo sampleMulticast good addr <> None.
Proof.
  intros bad good addr. split.
  - apply (proj1 (multicast_write_panics_iff_inUse_outside_buffer
                    sampleMulticast bad addr)).
    left. reflexivity.
  - destruct (multicast_write_panics_iff_inUse_outside_buffer
                sampleMulticast good addr) as (_ & _ & _ & H).
    apply (H sampleSize TCPData sampleTCP [Datagram sampleFrame tt]
             (repeat LoopStep 4) (EvOnRecvData Self good)).
    + vm_compute. do 2 right. left. reflexivity.
    + reflexivity.
Defined.

(** ** Receiving *)

Lemma deliveries_of_received (size : nat) (k : Loop) (t0 : transportOf k)
  (u : Layer) (ds : list (list byte * senderOf k)) :
  map delivered (filter isDelivery (concat (map (received size k t0 u) ds))) =
  map (fun da => Some (packetFor size k t0 (firstn size (fst da)) (snd da))) ds
  /\
  count isRead (concat (map (received size k t0 u) ds)) = length ds.
Proof.
  unfold count. induction ds as [|da ds [IH1 IH2]]; [now split|].
  cbn [map concat]. rewrite !filter_app, map_app, length_app, IH1, IH2.
  split; [|now destruct k].
  now destruct k.
Qed.

(** X8. What is on the socket reaches the upper layer once each and in
    the order of arrival.  A loop started on a transport with an upper
    layer (and, for TCP, a known peer) whose socket holds the chunks [ds],
    each of which fits the loop (any datagram for multicast, a read of two
    bytes up to the buffer size for TCP), takes one step for its entry and
    three for each chunk; after them the socket is empty, the loop is back
    at the top of its [for] statement, it has read as often as there were
    chunks, and the trace is, chunk by chunk: the deadline, the read, the
    delivery of the packet made of that chunk.  For the multicast loops
    the packet holds the datagram cut to the buffer size. *)
Theorem chunks_are_delivered_once_each_in_order :
  forall (size : nat) (k : Loop) (t0 : transportOf k) (u : Layer)
         (ds : list (list byte * senderOf k)),
    let s := run (loopOf size k) (LoopStep :: repeat LoopStep (3 * length ds))
                 (spawn size t0 (map arrival ds)) in
    callUpper t0 = Some u -> peerKnown k t0 = true ->
    forallb (fun da => fits k size (fst da)) ds = true ->
    pc s = AtRead /\ input s = [] /\
    trace s = concat (map (received size k t0 u) ds) /\
    map delivered (filter isDelivery (trace s)) =
    map (fun da => Some (packetFor size k t0 (firstn size (fst da)) (snd da)))
        ds /\
    count isRead (trace s) = length ds.
Proof.
  intros size k t0 u ds. cbv zeta. intros Hu Hpeer Hfit.
  destruct (spawn_receives size k t0 u ds Hu Hpeer Hfit) as (H1 & H2 & H3).
  split; [exact H1|]. split; [exact H2|]. split; [exact H3|].
  rewrite H3. apply deliveries_of_received.
Qed.

(** Two datagrams for the multicast data loop, the first longer than the
    buffer of eight bytes. *)
Lemma chunks_are_delivered_once_each_in_order_witness :
  trace (run (loopOf sampleSize MulticastData) (repeat LoopStep 7)
             (spawn sampleSize sampleMulticast
                    [Datagram sampleRTP samplePeer;
                     Datagram [x01; x02] samplePeer])) =
  [EvSetReadDeadline DataConn 20; EvRead DataConn;
   EvOnRecvData Self
     (mkPacket (mkAddress [xc0; xa8; x00; x02] 6000 0)
               [x80; x60; x00; x01; x00; x00; x00; xa0] 8);
   EvSetReadDeadline DataConn 20; EvRead DataConn;
   EvOnRecvData Self
     (mkPacket (mkAddress [xc0; xa8; x00; x02] 6000 0)
               [x01; x02; x00; x00; x00; x00; x00; x00] 2)].
Proof.
  destruct (chunks_are_delivered_once_each_in_order
              sampleSize MulticastData sampleMulticast Self
              [(sampleRTP, samplePeer); ([x01; x02], samplePeer)]
              eq_refl eq_refl eq_refl) as (_ & _ & H & _).
  exact H.
Defined.

(** X9. The two bytes in front of a TCP read are skipped, never
    interpreted: two streams of reads that agree on everything after the
    first two bytes of each read lead to the same calls of the upper layer
    with the same packets.  The length a frame header announces therefore
    has no effect on [inUse] or on where a packet ends. *)
Theorem tcp_frame_header_is_not_interpreted :
  forall (size : nat) (t0 : TransportTCP.t) (u : Layer)
         (ds ds' : list (list byte * unit)),
    TransportTCP.callUpper t0 = Some u ->
    peerKnown TCPData t0 = true ->
    forallb (fun da => fits TCPData size (fst da)) ds = true ->
    forallb (fun da => fits TCPData size (fst da)) ds' = true ->
    map (fun da => skipn 2 (fst da)) ds = map (fun da => skipn 2 (fst da)) ds' ->
    trace (run (TransportTCP.readDataPacket size)
               (LoopStep :: repeat LoopStep (3 * length ds))
               (spawn size t0 (map arrival ds))) =
    trace (run (TransportTCP.readDataPacket size)
               (LoopStep :: repeat LoopStep (3 * length ds'))
               (spawn size t0 (map arrival ds'))).
Proof.
  intros size t0 u ds ds' Hu Hpeer Hfit Hfit' Heq.
  destruct (spawn_receives size TCPData t0 u ds Hu Hpeer Hfit) as (_ & _ & H).
  destruct (spawn_receives size TCPData t0 u ds' Hu Hpeer Hfit')
    as (_ & _ & H').
  transitivity (concat (map (received size TCPData t0 u) ds)); [exact H|].
  transitivity (concat (map (received size TCPData t0 u) ds'));
    [|symmetry; exact H'].
  clear H H'. f_equal.
  assert (Hrec : forall l : list (list byte * unit),
            forallb (fun da => fits TCPData size (fst da)) l = true ->
            map (received size TCPData t0 u) l =
            map (fun p => received size TCPData t0 u
                            (x00 :: x00 :: p, tt))
                (map (fun da => skipn 2 (fst da)) l)).
  { intros l Hl. rewrite map_map. apply map_ext_in. intros [d []] Hin.
    rewrite forallb_forall in Hl. specialize (Hl _ Hin).
    unfold fits in Hl. cbn [fst] in *.
    apply andb_prop in Hl. destruct Hl as [H2 Hsz].
    apply Nat.leb_le in H2, Hsz.
    unfold received, packetFor. cbn [fst snd].
    unfold peerKnown in Hpeer.
    destruct (TransportTCP.remoteAddrRtp t0) as [r|]; [|discriminate].
    destruct d as [|h1 [|h2 p]]; cbn [length] in H2, Hsz; try lia.
    cbn [skipn].
    rewrite (firstn_all2 (h1 :: h2 :: p)) by exact Hsz.
    rewrite (firstn_all2 (x00 :: x00 :: p)) by exact Hsz.
    cbn [skipn]. do 4 f_equal. }
  rewrite (Hrec ds Hfit), (Hrec ds' Hfit'). now rewrite Heq.
Qed.

(** The frame [sampleFrame] announces three bytes; the same bytes behind
    a header that announces 65535 give the same packet. *)
Lemma tcp_frame_header_is_not_interpreted_witness :
  trace (run (TransportTCP.readDataPacket sampleSize) (repeat LoopStep 4)
             (spawn sampleSize sampleTCP [Datagram sampleFrame tt])) =
  trace (run (TransportTCP.readDataPacket sampleSize) (repeat LoopStep 4)
             (spawn sampleSize sampleTCP
                    [Datagram [xff; xff; x61; x62; x63] tt])).
Proof.
  exact (tcp_frame_header_is_not_interpreted sampleSize sampleTCP Self
           [(sampleFrame, tt)] [([xff; xff; x61; x62; x63], tt)]
           eq_refl eq_refl eq_refl eq_refl eq_refl).
Defined.

(** X10. A packet written by [WriteDataTo] of one multicast transport and
    received by [readDataPacket] of another arrives as one call of
    [OnRecvData] with the same bytes in use, up to the size of the
    receiver's buffer: [inUse] is the smaller of the written [inUse] and
    the buffer size, the bytes in use are the first bytes of the written
    buffer, and the sender's address is in [fromAddr] with the control
    port zero.  The [fromAddr] of the written packet is not transmitted. *)
Theorem multicast_written_packet_is_received_alike :
  forall (size : nat) (sender receiver : TransportMulticast.t) (rp : Packet)
         (addr : Address) (from : UDPAddr) (u : Layer),
    0 <= inUse rp <= capacity rp ->
    TransportMulticast.callUpper receiver = Some u ->
    exists b dst rp',
      TransportMulticast.WriteDataTo sender rp addr =
      Some (EvWriteToUDP DataConn b dst) /\
      trace (run (TransportMulticast.readDataPacket size) (repeat LoopStep 4)
                 (spawn size receiver [Datagram b from])) =
      [EvSetReadDeadline DataConn 20; EvRead DataConn; EvOnRecvData u rp'] /\
      inUse rp' = Z.min (inUse rp) (Z.of_nat size) /\
      firstn (Z.to_nat (inUse rp')) (buffer rp') =
      firstn (Z.to_nat (inUse rp')) (buffer rp) /\
      fromAddr rp' = mkAddress (udpIP from) (udpPort from) 0.
Proof.
  intros size sender receiver rp addr from u Hin Hu.
  set (b := firstn (Z.to_nat (inUse rp)) (buffer rp)).
  assert (Hb : length b = Z.to_nat (inUse rp)).
  { unfold b. rewrite length_firstn. unfold capacity, Go.len in Hin. lia. }
  exists b, (mkUDPAddr (IpAddr addr) (DataPort addr) ""),
    (packetFor size MulticastData receiver (firstn size b) from).
  split; [|split; [|split; [|split]]].
  - unfold TransportMulticast.WriteDataTo.
    now rewrite slice_prefix by exact Hin.
  - destruct (spawn_receives size MulticastData receiver u [(b, from)]
                Hu eq_refl eq_refl) as (_ & _ & H).
    exact H.
  - cbn [packetFor inUse]. unfold Go.len. rewrite length_firstn, Hb. lia.
  - cbn [packetFor inUse buffer]. unfold Go.len. rewrite Nat2Z.id.
    rewrite firstn_exact. unfold b.
    rewrite !firstn_firstn, length_firstn.
    f_equal. unfold capacity, Go.len in Hin. lia.
  - reflexivity.
Qed.

(** Twelve bytes written, eight received. *)
Lemma multicast_written_packet_is_received_alike_witness :
  let rp := mkPacket (mkAddress [] 0 0) (sampleRTP ++ repeat x00 4) 12 in
  exists b dst rp',
    TransportMulticast.WriteDataTo sampleMulticast rp
      (mkAddress [xe0; x00; x00; x01] 5004 5005) =
    Some (EvWriteToUDP DataConn b dst) /\
    trace (run (TransportMulticast.readDataPacket sampleSize)
               (repeat LoopStep 4)
               (spawn sampleSize sampleMulticast [Datagram b samplePeer])) =
    [EvSetReadDeadline DataConn 20; EvRead DataConn; EvOnRecvData Self rp'] /\
    inUse rp' = Z.min (inUse rp) (Z.of_nat sampleSize) /\
    firstn (Z.to_nat (inUse rp')) (buffer rp') =
    firstn (Z.to_nat (inUse rp')) (buffer rp) /\
    fromAddr rp' = mkAddress (udpIP samplePeer) (udpPort samplePeer) 0.
Proof.
  intros rp.
  apply (multicast_written_packet_is_received_alike sampleSize
           sampleMulticast sampleMulticast rp
           (mkAddress [xe0; x00; x00; x01] 5004 5005) samplePeer Self).
  - vm_compute. split; discriminate.
  - reflexivity.
Defined.

(** ** Stopping an idle loop *)

Section Idle.

Context {T A : Type} {R : TransportRecv T} {RL : TransportRecvLaws T}.
Variable L : RecvLoop T A.

(** A loop at the top of its [for] statement with nothing to read: after
    [CloseRecv], four steps take it through one more read, the test, the
    [Close] and the send. *)
Lemma close_idle (s : State T A) (ch : nat) :
  pc s = AtRead -> input s = [] ->
  transportEnd (common (tp s)) = Some ch ->
  run L (CallCloseRecv :: repeat LoopStep 4) s =
  mkState (CloseRecv (tp s)) Terminated (buf s) []
          (trace s ++ polled L ++ [EvClose (conn L); EvSend ch (stopped L)]).
Proof.
  intros Hpc Hin Hch. cbn [run fold_left repeat step]. rewrite Hpc, Hin.
  set (t1 := CloseRecv (tp s)).
  assert (Hstop : get_stop (stopFlag L) (common t1) = true).
  { unfold t1. rewrite common_CloseRecv. now destruct (stopFlag L). }
  assert (Hend : transportEnd (common t1) = Some ch).
  { unfold t1. now rewrite common_CloseRecv. }
  assert (E1 : loop_step L (mkState t1 AtRead (buf s) [] (trace s)) =
               mkState t1 (AtStopTest (Failed errDeadline)) (buf s) []
                       (trace s ++ polled L)) by reflexivity.
  rewrite E1.
  assert (E2 : loop_step L
                 (mkState t1 (AtStopTest (Failed errDeadline)) (buf s) []
                          (trace s ++ polled L)) =
               mkState t1 AtClose (buf s) [] (trace s ++ polled L)).
  { unfold loop_step. state_simpl. now rewrite Hstop. }
  rewrite E2.
  assert (E3 : loop_step L (mkState t1 AtClose (buf s) [] (trace s ++ polled L))
               = mkState t1 AtSend (buf s) []
                         ((trace s ++ polled L) ++ [EvClose (conn L)]))
    by reflexivity.
  rewrite E3. unfold loop_step. state_simpl. rewrite Hend.
  f_equal. now rewrite <- !app_assoc.
Qed.

Lemma idle_then_closed (size : nat) (t0 : T) (n : nat) (ch : nat) :
  transportEnd (common t0) = Some ch ->
  pc (run L (LoopStep :: repeat LoopStep (3 * n)
                   ++ CallCloseRecv :: repeat LoopStep 4)
          (spawn size t0 [])) = Terminated /\
  trace (run L (LoopStep :: repeat LoopStep (3 * n)
                      ++ CallCloseRecv :: repeat LoopStep 4)
             (spawn size t0 [])) =
  concat (repeat (polled L) (n + 1))
  ++ [EvClose (conn L); EvSend ch (stopped L)].
Proof.
  intros Hch. rewrite run_cons. cbn [step].
  rewrite (step_entry L) by reflexivity. cbn [tp buf input trace spawn].
  set (t1 := set_common _ t0).
  assert (Hend : transportEnd (common t1) = Some ch).
  { unfold t1. now rewrite common_set_common, transportEnd_set_stop. }
  rewrite run_app.
  rewrite (poll_many L n (mkState t1 AtRead (newBuf size) [] [])); try reflexivity.
  - rewrite (close_idle _ ch); try reflexivity; [|exact Hend].
    state_simpl. split; [reflexivity|]. cbn [app].
    rewrite repeat_app, concat_app. cbn [repeat concat].
    now rewrite app_nil_r, <- app_assoc.
  - unfold stopRequested, t1. cbn [tp].
    now rewrite common_set_common, get_set_stop.
Qed.

End Idle.

(** X11. However long a loop has waited on a silent socket, [CloseRecv]
    ends it after exactly one more read: started with nothing to read, the
    loop polls (deadline, read) once every three steps; when the owner then
    calls [CloseRecv], four more steps of the loop give one more deadline
    and read, the [Close] of the loop's connection and the send of its
    termination value on the end channel, and the goroutine has returned.
    Nothing is ever delivered. *)
Theorem idle_loop_ends_one_read_after_CloseRecv :
  forall (size : nat) (k : Loop) (t0 : transportOf k) (n : nat) (ch : nat),
    let L := loopOf size k in
    let s := run L (LoopStep :: repeat LoopStep (3 * n)
                      ++ CallCloseRecv :: repeat LoopStep 4)
                 (spawn size t0 []) in
    transportEnd (common t0) = Some ch ->
    pc s = Terminated /\
    trace s = concat (repeat (polled L) (n + 1))
              ++ [EvClose (conn L); EvSend ch (stopped L)] /\
    count isRead (trace s) = (n + 1)%nat /\
    count isDelivery (trace s) = 0%nat.
Proof.
  intros size k t0 n ch. cbv zeta. intros Hch.
  pose proof (laws_of k) as RL.
  destruct (idle_then_closed (loopOf size k) size t0 n ch Hch) as [H1 H2].
  split; [exact H1|]. split; [exact H2|].
  rewrite H2, !count_app.
  assert (Hp : forall m,
            count isRead (concat (repeat (polled (loopOf size k)) m)) = m /\
            count isDelivery (concat (repeat (polled (loopOf size k)) m))
            = 0%nat).
  { induction m as [|m [IH1 IH2]]; [now split|].
    cbn [repeat concat]. rewrite !count_app, IH1, IH2. now split. }
  destruct (Hp (n + 1)%nat) as [Hr Hd]. rewrite Hr, Hd.
  split; unfold count; cbn [filter isRead isDelivery length]; lia.
Qed.

(** The multicast data loop has polled twice when the owner stops it. *)
Lemma idle_loop_ends_one_read_after_CloseRecv_witness :
  trace (run (loopOf sampleSize MulticastData)
             (repeat LoopStep 7 ++ CallCloseRecv :: repeat LoopStep 4)
             (spawn sampleSize sampleMulticast [])) =
  [EvSetReadDeadline DataConn 20; EvRead DataConn;
   EvSetReadDeadline DataConn 20; EvRead DataConn;
   EvSetReadDeadline DataConn 20; EvRead DataConn;
   EvClose DataConn; EvSend sampleChannel DataTransportRecvStopped].
Proof.
  destruct (idle_loop_ends_one_read_after_CloseRecv
              sampleSize MulticastData sampleMulticast 2 sampleChannel eq_refl)
    as (_ & H & _).
  exact H.
Defined.

(** ** After the signal *)

(** X12. The owner that has received the termination value may rely on
    the loop being gone: if the trace of a loop holds a send at all, the
    goroutine has returned, the value sent is the loop's own termination
    value, the send is the last event and the [Close] of the loop's
    connection the one before it, and nothing the loop or the owner does
    afterwards adds an event. *)
Theorem signal_means_the_loop_has_returned :
  forall (size : nat) (k : Loop) (t0 : transportOf k)
         (inp : list (Incoming (senderOf k))) (sched : list Action)
         (ch : nat) (v : TransportEndValue),
    let L := loopOf size k in
    let s := run L sched (spawn size t0 inp) in
    In (EvSend ch v) (trace s) ->
    pc s = Terminated /\ v = stopped L /\
    (exists body,
        trace s = body ++ [EvClose (conn L); EvSend ch v] /\ quiet body) /\
    forall more,
      pc (run L more s) = Terminated /\ trace (run L more s) = trace s.
Proof.
  intros size k t0 inp sched ch v. cbv zeta. intros Hin.
  pose proof (laws_of k) as RL.
  pose proof (loop_laws_of size k) as LL.
  set (s := run (loopOf size k) sched (spawn size t0 inp)) in *.
  assert (Hshape : shutdownShape (loopOf size k) s).
  { apply shape_run; [exact _|].
    unfold shutdownShape, spawn. cbn. now split. }
  assert (Hq : forall tr, quiet tr -> ~ In (EvSend ch v) tr).
  { intros tr [Hs _] Hi.
    pose proof (in_count_pos isSend _ _ Hi eq_refl) as Hc.
    rewrite Hs in Hc. inversion Hc. }
  assert (Hqc : forall body,
            quiet body -> ~ In (EvSend ch v) (body ++ [EvClose (conn (loopOf size k))])).
  { intros body Hb Hi. apply in_app_or in Hi.
    destruct Hi as [Hi|[Hi|[]]]; [now apply (Hq body)|discriminate Hi]. }
  unfold shutdownShape in Hshape.
  destruct (pc s) eqn:Hpc; try (now elim (Hq _ Hshape Hin)).
  - destruct Hshape as (body & Ht & Hb). rewrite Ht in Hin.
    now elim (Hqc body Hb).
  - destruct Hshape as (body & Ht & Hb). rewrite Ht in Hin.
    now elim (Hqc body Hb).
  - destruct Hshape as (body & ch' & Ht & Hb).
    assert (Heq : ch' = ch /\ v = stopped (loopOf size k)).
    { rewrite Ht in Hin. apply in_app_or in Hin.
      destruct Hin as [Hi|[Hi|[Hi|[]]]];
        [now elim (Hq body Hb)|discriminate Hi|].
      inversion Hi. now split. }
    destruct Heq as [-> ->].
    split; [reflexivity|]. split; [reflexivity|].
    split; [now exists body|].
    intros more. now apply terminated_stays.
Qed.

(** The TCP loop, stopped while it waits; a late [CloseRecv] and further
    steps change nothing. *)
Lemma signal_means_the_loop_has_returned_witness :
  let L := loopOf sampleSize TCPData in
  let s := run L [LoopStep; CallCloseRecv; LoopStep; LoopStep; LoopStep;
                  LoopStep]
               (spawn sampleSize sampleTCP [Datagram sampleFrame tt]) in
  pc s = Terminated /\
  trace (run L [CallCloseRecv; LoopStep; LoopStep] s) = trace s.
Proof.
  intros L s.
  destruct (signal_means_the_loop_has_returned sampleSize TCPData sampleTCP
              [Datagram sampleFrame tt]
              [LoopStep; CallCloseRecv; LoopStep; LoopStep; LoopStep; LoopStep]
              sampleChannel DataTransportRecvStopped)
    as (H1 & _ & _ & H2).
  - vm_compute. do 3 right. left. reflexivity.
  - split; [exact H1|].
    exact (proj2 (H2 [CallCloseRecv; LoopStep; LoopStep])).
Defined.

(** ** Deadlines and connections *)

(** X13. A loop never reads without a fresh deadline and never touches a
    connection that is not its own: in every trace each read comes directly
    after a [SetReadDeadline] on the same connection, with 20 milliseconds
    for the data loops and 100 for the control loop, no deadline is set
    without the read that follows it, and every deadline, read and [Close]
    is on the data connection for the data loops and on the control
    connection for the control loop.  A receive loop never writes. *)
Theorem reads_are_armed_on_the_loops_own_connection :
  forall (size : nat) (k : Loop) (t0 : transportOf k)
         (inp : list (Incoming (senderOf k))) (sched : list Action),
    let L := loopOf size k in
    let s := run L sched (spawn size t0 inp) in
    armedFrom (if isCtrl k then CtrlConn else DataConn)
              (if isCtrl k then 100 else 20) false (trace s) = true /\
    (forall e c, In e (trace s) -> connOf e = Some c ->
                 c = (if isCtrl k then CtrlConn else DataConn)) /\
    (forall c b dst, ~ In (EvWriteToUDP c b dst) (trace s)).
Proof.
  intros size k t0 inp sched. cbv zeta.
  pose proof (laws_of k) as RL.
  pose proof (loop_laws_of size k) as LL.
  assert (Hc : conn (loopOf size k) = if isCtrl k then CtrlConn else DataConn)
    by now destruct k.
  assert (Hd : deadline (loopOf size k) = if isCtrl k then 100 else 20)
    by now destruct k.
  rewrite <- Hc, <- Hd.
  split; [|split].
  - apply armed_run; [exact _|reflexivity].
  - apply own_conn_run; [exact _|]. intros e c [].
  - intros c b dst.
    assert (Hno : forall (s : State (transportOf k) (senderOf k)),
              ~ In (EvWriteToUDP c b dst) (trace s) ->
              forall a, ~ In (EvWriteToUDP c b dst)
                             (trace (step (loopOf size k) a s))).
    { intros s Hs a. destruct a; cbn [step trace]; try exact Hs.
      unfold loop_step.
      destruct (pc s) as [ | | o | [n ad|e0] | | | | | rp]; state_simpl;
        try exact Hs.
      - destruct (read (loopOf size k) (buf s) (input s)) as [[b0 o] rest].
        state_simpl. intros Hi. apply in_app_or in Hi.
        destruct Hi as [Hi|[Hi|[Hi|[]]]]; [now apply Hs|discriminate..].
      - now destruct (get_stop _ _).
      - destruct (construct _ _ _ _ _) as [rp|rp];
          [destruct (callUpper (tp s)) as [u|]|]; state_simpl; try exact Hs.
        intros Hi. apply in_app_or in Hi.
        destruct Hi as [Hi|[Hi|[]]]; [now apply Hs|].
        destruct k; discriminate Hi.
      - now destruct (isTimeout e0).
      - intros Hi. apply in_app_or in Hi.
        destruct Hi as [Hi|[Hi|[]]]; [now apply Hs|discriminate].
      - destruct (transportEnd _) as [ch|]; state_simpl; try exact Hs.
        intros Hi. apply in_app_or in Hi.
        destruct Hi as [Hi|[Hi|[]]]; [now apply Hs|discriminate]. }
    assert (Hall : forall sch (s0 : State (transportOf k) (senderOf k)),
              ~ In (EvWriteToUDP c b dst) (trace s0) ->
              ~ In (EvWriteToUDP c b dst) (trace (run (loopOf size k) sch s0))).
    { induction sch as [|a sch IH]; intros s0 H0; [exact H0|].
      rewrite run_cons. apply IH, Hno, H0. }
    apply Hall. intros H. exact H.
Qed.

(** The control loop, which nothing starts, would read on the control
    connection with a deadline of 100 milliseconds. *)
Lemma reads_are_armed_on_the_loops_own_connection_witness :
  let s := run (loopOf sampleSize MulticastCtrl) (repeat LoopStep 4)
               (spawn sampleSize sampleMulticast [Datagram sampleRTP samplePeer]) in
  armedFrom CtrlConn 100 false (trace s) = true /\
  In (EvRead CtrlConn) (trace s) /\
  (forall e c, In e (trace s) -> connOf e = Some c -> c = CtrlConn).
Proof.
  intros s.
  destruct (reads_are_armed_on_the_loops_own_connection
              sampleSize MulticastCtrl sampleMulticast
              [Datagram sampleRTP samplePeer] (repeat LoopStep 4))
    as (H1 & H2 & _).
  split; [exact H1|]. split; [|exact H2].
  vm_compute. right. left. reflexivity.
Defined.

(** ** The upper layer *)

Lemma count_zero (p : Event -> bool) (tr : list Event) :
  (forall e, In e tr -> p e = false) -> count p tr = 0%nat.
Proof.
  unfold count. induction tr as [|e tr IH]; intros H; [reflexivity|].
  cbn [filter]. rewrite (H e) by now left.
  apply IH. intros e' He'. apply H. now right.
Qed.

Section UpperFacts.

Context {T A : Type} {R : TransportRecv T} {RL : TransportRecvLaws T}.
Variable L : RecvLoop T A.
Hypothesis upper_deliver : forall u rp, upperOf (deliver L u rp) = Some u.
Variable P : Layer -> Prop.

Lemma upper_step (a : Action) (s : State T A) :
  (forall u, callUpper (tp s) = Some u -> P u) ->
  (forall u, a = CallSetCallUpper (Some u) -> P u) ->
  (forall e u, In e (trace s) -> upperOf e = Some u -> P u) ->
  (forall u, callUpper (tp (step L a s)) = Some u -> P u) /\
  (forall e u, In e (trace (step L a s)) -> upperOf e = Some u -> P u).
Proof.
  intros Hu Ha Ht. destruct a; cbn [step tp trace].
  - unfold loop_step.
    destruct (pc s) as [ | | o | [n ad|e0] | | | | | rp]; state_simpl;
      try (now split).
    + split; [|exact Ht]. intros u. rewrite callUpper_set_common. apply Hu.
    + destruct (read L (buf s) (input s)) as [[b0 o] rest]. state_simpl.
      split; [exact Hu|]. intros e u Hi He. apply in_app_or in Hi.
      destruct Hi as [Hi|[Hi|[Hi|[]]]]; [now apply (Ht e)|subst e..];
        discriminate He.
    + now destruct (get_stop _ _).
    + destruct (construct L (tp s) (buf s) n ad) as [rp|rp];
        [remember (callUpper (tp s)) as cu eqn:Hcu in |- *;
         destruct cu as [u0|]|]; state_simpl;
        try (now split).
      split; [exact Hu|].
      intros e u Hi He. apply in_app_or in Hi.
      destruct Hi as [Hi|[Hi|[]]]; [now apply (Ht e)|subst e].
      rewrite upper_deliver in He. inversion He; subst u0. now apply Hu.
    + now destruct (isTimeout e0).
    + split; [exact Hu|]. intros e u Hi He. apply in_app_or in Hi.
      destruct Hi as [Hi|[Hi|[]]]; [now apply (Ht e)|subst e].
      discriminate He.
    + destruct (transportEnd _) as [ch|]; state_simpl; try (now split).
      split; [exact Hu|]. intros e u Hi He. apply in_app_or in Hi.
      destruct Hi as [Hi|[Hi|[]]]; [now apply (Ht e)|subst e].
      discriminate He.
  - split; [|exact Ht]. intros u. rewrite callUpper_CloseRecv. apply Hu.
  - split; [|exact Ht]. intros u. rewrite callUpper_SetEndChannel. apply Hu.
  - split; [|exact Ht]. intros u. rewrite callUpper_SetCallUpper.
    intros ->. now apply Ha.
Qed.

Lemma upper_run (sched : list Action) (s : State T A) :
  (forall u, callUpper (tp s) = Some u -> P u) ->
  (forall u, In (CallSetCallUpper (Some u)) sched -> P u) ->
  (forall e u, In e (trace s) -> upperOf e = Some u -> P u) ->
  forall e u, In e (trace (run L sched s)) -> upperOf e = Some u -> P u.
Proof.
  revert s. induction sched as [|a sched IH]; intros s Hu Hs Ht; [exact Ht|].
  rewrite run_cons.
  destruct (upper_step a s Hu) as [H1 H2]; [|exact Ht|].
  - intros u ->. apply Hs. now left.
  - apply IH; auto. intros u Hi. apply Hs. now right.
Qed.

End UpperFacts.

(** X14. A packet only ever goes to a layer that was installed: every
    call of [OnRecvData] or [OnRecvCtrl] in a trace is made on the upper
    layer the transport was started with or on one that a call of
    [SetCallUpper] in the schedule installed.  With the nil layer installed
    and never replaced, packets are read and dropped: nothing is
    delivered. *)
Theorem packets_go_only_to_an_installed_upper_layer :
  forall (size : nat) (k : Loop) (t0 : transportOf k)
         (inp : list (Incoming (senderOf k))) (sched : list Action),
    let s := run (loopOf size k) sched (spawn size t0 inp) in
    (forall e u,
        In e (trace s) -> upperOf e = Some u ->
        callUpper t0 = Some u \/ In (CallSetCallUpper (Some u)) sched) /\
    (callUpper t0 = None -> installsNoUpper sched = true ->
     count isDelivery (trace s) = 0%nat).
Proof.
  intros size k t0 inp sched. cbv zeta.
  pose proof (laws_of k) as RL.
  assert (Hup : forall u rp, upperOf (deliver (loopOf size k) u rp) = Some u)
    by now destruct k.
  assert (H1 : forall e u,
            In e (trace (run (loopOf size k) sched (spawn size t0 inp))) ->
            upperOf e = Some u ->
            callUpper t0 = Some u \/ In (CallSetCallUpper (Some u)) sched).
  { apply (upper_run (loopOf size k) Hup
             (fun u => callUpper t0 = Some u \/
                       In (CallSetCallUpper (Some u)) sched)).
    - intros u Hu. now left.
    - intros u Hi. now right.
    - intros e u []. }
  split; [exact H1|].
  intros Hnil Hno. apply count_zero. intros e Hin.
  destruct (isDelivery e) eqn:He; [|reflexivity].
  assert (Hu : exists u, upperOf e = Some u)
    by (destruct e; try discriminate; eexists; reflexivity).
  destruct Hu as [u Hu].
  destruct (H1 e u Hin Hu) as [H|H]; [congruence|].
  unfold installsNoUpper in Hno. rewrite forallb_forall in Hno.
  specialize (Hno _ H). discriminate Hno.
Qed.

(** The owner of the TCP transport installs layer 1 after the first frame
    and before the second: the first goes to the transport itself, the
    second to layer 1. *)
Lemma packets_go_only_to_an_installed_upper_layer_witness :
  let sched := repeat LoopStep 4 ++ CallSetCallUpper (Some (Upper 1))
                 :: repeat LoopStep 3 in
  let s := run (loopOf sampleSize TCPData) sched
               (spawn sampleSize sampleTCP
                      [Datagram sampleFrame tt; Datagram sampleFrame tt]) in
  let rp := mkPacket (mkAddress [x0a; x00; x00; x01] 40000 0)
                     [x61; x62; x63; x00; x00; x00; x00; x00] 3 in
  map upperOf (filter isDelivery (trace s)) = [Some Self; Some (Upper 1)] /\
  (callUpper sampleTCP = Some (Upper 1) \/
   In (CallSetCallUpper (Some (Upper 1))) sched).
Proof.
  intros sched s rp. split; [reflexivity|].
  apply (proj1 (packets_go_only_to_an_installed_upper_layer
                  sampleSize TCPData sampleTCP
                  [Datagram sampleFrame tt; Datagram sampleFrame tt] sched)
           (EvOnRecvData (Upper 1) rp) (Upper 1)).
  - vm_compute. do 5 right. left. reflexivity.
  - reflexivity.
Defined.

(** ** The write side *)

Lemma toLower_step (size : nat) (ctrl : bool) (a : Action)
  (s : State TransportMulticast.t UDPAddr) :
  TransportMulticast.toLower
    (tp (step (if ctrl then TransportMulticast.readCtrlPacket size
               else TransportMulticast.readDataPacket size) a s)) =
  TransportMulticast.toLower (tp s).
Proof.
  destruct a; cbn [step tp]; try reflexivity.
  unfold loop_step.
  destruct (pc s) as [ | | o | [n ad|e0] | | | | | rp]; state_simpl;
    try reflexivity.
  - now destruct (read _ (buf s) (input s)) as [[b0 o] rest].
  - now destruct (get_stop _ _).
  - now destruct (construct _ _ _ _ _) as [rp|rp];
      [destruct (callUpper (tp s))|].
  - now destruct (isTimeout e0).
  - now destruct (transportEnd _).
Qed.

(** X15. The write side and the receive side of the multicast transport do
    not interfere.  [SetToLower] and [CloseWrite] change nothing a receive
    loop can see: started after them, the data loop and the control loop
    run, step for step and under every schedule, as they would have
    without them.  And no step of a loop and no call of [CloseRecv],
    [SetEndChannel] or [SetCallUpper] changes [toLower]. *)
Theorem multicast_write_side_is_invisible_to_receive :
  forall (size : nat) (ctrl : bool) (t0 : TransportMulticast.t)
         (lower : option Layer) (inp : list (Incoming UDPAddr))
         (sched : list Action),
    let L := if ctrl then TransportMulticast.readCtrlPacket size
             else TransportMulticast.readDataPacket size in
    let t1 := TransportMulticast.CloseWrite
                (TransportMulticast.SetToLower lower t0) in
    sameView L (run L sched (spawn size t1 inp))
               (run L sched (spawn size t0 inp)) /\
    TransportMulticast.toLower (tp (run L sched (spawn size t1 inp))) = lower /\
    TransportMulticast.CloseWrite t0 = t0.
Proof.
  intros size ctrl t0 lower inp sched. cbv zeta.
  split; [|split; [|reflexivity]].
  - destruct ctrl.
    + apply sameView_run; [exact _|]. repeat split.
    + apply sameView_run; [exact _|]. repeat split.
  - generalize (spawn size
                  (TransportMulticast.CloseWrite
                     (TransportMulticast.SetToLower lower t0)) inp)
      (eq_refl : TransportMulticast.toLower
                   (tp (spawn size
                          (TransportMulticast.CloseWrite
                             (TransportMulticast.SetToLower lower t0)) inp))
                 = lower).
    induction sched as [|a sched IH]; intros s Hs; [exact Hs|].
    rewrite run_cons. apply IH. now rewrite toLower_step.
Qed.

(** ** A transport out of the box *)

(** X16. From the constructor to the upper layer.  A transport made by
    [NewTransportMulticast] or [NewTransportTCP] and set up successfully
    (by [ListenOnTransports] for multicast, by the listener goroutine for
    TCP) is its own upper layer and has the nil end channel.  So, on
    whatever input and schedule, the loop that was started hands each
    packet to the transport's own [OnRecvData] unless the owner has
    installed another layer with [SetCallUpper]; and unless the owner
    installs an end channel the goroutine never returns. *)
Theorem fresh_transport_delivers_to_itself_and_cannot_signal :
  forall (size : nat) (addr : IP) (port : Z) (sched : list Action),
    (forall (os : TransportMulticast.Env) (inp : list (Incoming UDPAddr)),
        let r := TransportMulticast.ListenOnTransports os
                   (fst (TransportMulticast.NewTransportMulticast addr port)) in
        let s := run (TransportMulticast.readDataPacket size) sched
                     (spawn size (TransportMulticast.after r) inp) in
        snd (TransportMulticast.NewTransportMulticast addr port) = None /\
        (TransportMulticast.err r = None ->
         TransportMulticast.started r = [GoReadDataPacket] /\
         (forall e u, In e (trace s) -> upperOf e = Some u ->
                      u = Self \/ In (CallSetCallUpper (Some u)) sched) /\
         (installsNoChannel sched = true -> pc s <> Terminated))) /\
    (forall (os : TransportTCP.Env) (tp1 : TransportTCP.t)
            (gs : list Goroutine) (inp : list (Incoming unit)),
        let s := run (TransportTCP.readDataPacket size) sched
                     (spawn size tp1 inp) in
        snd (TransportTCP.NewTransportTCP addr port) = None /\
        (TransportTCP.listener os (fst (TransportTCP.NewTransportTCP addr port))
         = TransportTCP.ListenerReturns tp1 gs ->
         (forall e u, In e (trace s) -> upperOf e = Some u ->
                      u = Self \/ In (CallSetCallUpper (Some u)) sched) /\
         (installsNoChannel sched = true -> pc s <> Terminated))).
Proof.
  intros size addr port sched. split.
  - intros os inp. cbv zeta. split; [reflexivity|]. intros Herr.
    set (tp0 := fst (TransportMulticast.NewTransportMulticast addr port)) in *.
    destruct (multicast_setup_failure_reported os tp0) as (Hst & _).
    split; [now apply Hst|].
    assert (Hu : TransportMulticast.callUpper
                   (TransportMulticast.after
                      (TransportMulticast.ListenOnTransports os tp0))
                 = Some Self /\
                 transportEnd
                   (TransportMulticast.Common
                      (TransportMulticast.after
                         (TransportMulticast.ListenOnTransports os tp0)))
                 = None).
    { unfold TransportMulticast.ListenOnTransports.
      destruct (TransportMulticast.lcListenPacket os);
        [destruct (TransportMulticast.JoinGroup os _)|]; now split. }
    destruct Hu as [Hu Hend].
    set (t1 := TransportMulticast.after
                 (TransportMulticast.ListenOnTransports os tp0)) in *.
    split.
    + intros e u Hin He.
      apply (upper_run (TransportMulticast.readDataPacket size)
               (fun u rp => eq_refl)
               (fun u => u = Self \/ In (CallSetCallUpper (Some u)) sched)
               sched (spawn size t1 inp)) with (e := e); auto.
      * intros u0 H. left. cbn in H. congruence.
      * intros e0 u0 [].
    + intros Hno.
      apply (nil_channel_run (TransportMulticast.readDataPacket size) sched
               (spawn size t1 inp)); auto. discriminate.
  - intros os tp1 gs inp. cbv zeta. split; [reflexivity|]. intros Hl.
    assert (Hu : TransportTCP.callUpper tp1 = Some Self /\
                 transportEnd (TransportTCP.Common tp1) = None).
    { unfold TransportTCP.listener in Hl.
      destruct (TransportTCP.ListenTCP os _) as [ln|e0];
        [destruct (TransportTCP.AcceptTCP os ln) as [[c raddr]|e1]|];
        inversion Hl; now split. }
    destruct Hu as [Hu Hend]. split.
    + intros e u Hin He.
      apply (upper_run (TransportTCP.readDataPacket size)
               (fun u rp => eq_refl)
               (fun u => u = Self \/ In (CallSetCallUpper (Some u)) sched)
               sched (spawn size tp1 inp)) with (e := e); auto.
      * intros u0 H. left. cbn in H. congruence.
      * intros e0 u0 [].
    + intros Hno.
      apply (nil_channel_run (TransportTCP.readDataPacket size) sched
               (spawn size tp1 inp)); auto. discriminate.
Qed.

(** The multicast transport on 224.0.0.1:5004, set up on [sampleJoining]
    and stopped by its owner, who has installed no end channel. *)
Lemma fresh_transport_delivers_to_itself_and_cannot_signal_witness :
  let sched := repeat LoopStep 4 ++ CallCloseRecv :: repeat LoopStep 5 in
  let r := TransportMulticast.ListenOnTransports sampleJoining
             (fst (TransportMulticast.NewTransportMulticast
                     [xe0; x00; x00; x01] 5004)) in
  let s := run (TransportMulticast.readDataPacket sampleSize) sched
               (spawn sampleSize (TransportMulticast.after r)
                      [Datagram sampleRTP samplePeer]) in
  map upperOf (filter isDelivery (trace s)) = [Some Self] /\
  pc s = Blocked /\ pc s <> Terminated.
Proof.
  intros sched r s.
  split; [reflexivity|]. split; [reflexivity|].
  destruct (fresh_transport_delivers_to_itself_and_cannot_signal
              sampleSize [xe0; x00; x00; x01] 5004 sched) as [H _].
  destruct (H sampleJoining [Datagram sampleRTP samplePeer]) as (_ & H1).
  destruct (H1 eq_refl) as (_ & _ & H2).
  exact (H2 eq_refl).
Defined.

(** ** A chunk of the stream that does not fit *)

(** On a stream, a chunk longer than the buffer is read as the part that
    fits followed by the rest. *)
Lemma stream_chunk_split (size : nat) (t0 : TransportTCP.t) (d : list byte)
  (rest : list (Incoming unit)) (sched : list Action) :
  (size < length d)%nat ->
  run (TransportTCP.readDataPacket size) (LoopStep :: LoopStep :: sched)
      (spawn size t0 (Datagram d tt :: rest)) =
  run (TransportTCP.readDataPacket size) (LoopStep :: LoopStep :: sched)
      (spawn size t0
             (Datagram (firstn size d) tt :: Datagram (skipn size d) tt :: rest)).
Proof.
  intros Hlen. rewrite !(run_cons _ LoopStep). cbn [step].
  rewrite (step_entry (TransportTCP.readDataPacket size)
             (spawn size t0 (Datagram d tt :: rest))) by reflexivity.
  rewrite (step_entry (TransportTCP.readDataPacket size)
             (spawn size t0
                (Datagram (firstn size d) tt
                 :: Datagram (skipn size d) tt :: rest))) by reflexivity.
  cbn [tp buf input trace spawn].
  rewrite (step_read _ _ d tt rest) by reflexivity.
  rewrite (step_read _ _ (firstn size d) tt (Datagram (skipn size d) tt :: rest))
    by reflexivity.
  cbn [tp buf input trace]. unfold newBuf. rewrite repeat_length.
  rewrite firstn_firstn, Nat.min_id. f_equal. f_equal.
  unfold leftover. cbn [isStream TransportTCP.readDataPacket].
  rewrite (skipn_all2 (firstn size d)) by apply firstn_le_length.
  destruct (skipn size d) eqn:Hs; [|reflexivity].
  exfalso. apply (f_equal (@length byte)) in Hs.
  rewrite length_skipn in Hs. cbn in Hs. lia.
Qed.

(** X17. The TCP loop does not reassemble: a chunk of the stream that is
    longer than the read buffer (by at least two bytes, and at most twice
    its size) reaches the upper layer as two packets, and since the first
    two bytes of every read are dropped as a frame header, the two bytes
    that happen to open the second read are lost.  The first packet holds
    the bytes 2 to [size] of the chunk, the second the bytes from
    [size + 2] on; together they hold four bytes fewer than the chunk. *)
Theorem tcp_long_chunk_is_split_and_loses_two_bytes :
  forall (size : nat) (t0 : TransportTCP.t) (u : Layer) (d : list byte),
    let s := run (TransportTCP.readDataPacket size) (repeat LoopStep 7)
                 (spawn size t0 [Datagram d tt]) in
    TransportTCP.callUpper t0 = Some u -> peerKnown TCPData t0 = true ->
    (2 <= size)%nat -> (size + 2 <= length d)%nat ->
    (length d <= 2 * size)%nat ->
    exists p1 p2,
      trace s = [EvSetReadDeadline DataConn 20; EvRead DataConn;
                 EvOnRecvData u p1;
                 EvSetReadDeadline DataConn 20; EvRead DataConn;
                 EvOnRecvData u p2] /\
      inUse p1 = Z.of_nat size - 2 /\
      inUse p2 = Z.of_nat (length d) - Z.of_nat size - 2 /\
      firstn (Z.to_nat (inUse p1)) (buffer p1) = skipn 2 (firstn size d) /\
      firstn (Z.to_nat (inUse p2)) (buffer p2) = skipn (size + 2) d /\
      inUse p1 + inUse p2 = Z.of_nat (length d) - 4.
Proof.
  intros size t0 u d. cbv zeta. intros Hu Hpeer H2 Hlo Hhi.
  change (repeat LoopStep 7)
    with (LoopStep :: LoopStep :: repeat LoopStep 5).
  rewrite stream_chunk_split by lia.
  assert (Hl1 : length (firstn size d) = size)
    by (rewrite length_firstn; lia).
  assert (Hl2 : length (skipn size d) = (length d - size)%nat)
    by apply length_skipn.
  destruct (spawn_receives size TCPData t0 u
              [(firstn size d, tt); (skipn size d, tt)] Hu Hpeer)
    as (_ & _ & Ht).
  { cbn [forallb fst fits]. rewrite Hl1, Hl2.
    rewrite !andb_true_iff, !Nat.leb_le. lia. }
  unfold peerKnown in Hpeer.
  destruct (TransportTCP.remoteAddrRtp t0) as [r|] eqn:Hr; [|discriminate].
  eexists. eexists. split; [exact Ht|].
  unfold packetFor. rewrite Hr. cbn [inUse buffer fst snd].
  rewrite firstn_firstn, Nat.min_id.
  rewrite (firstn_all2 (skipn size d)) by (rewrite Hl2; lia).
  unfold Go.len. rewrite Hl1, Hl2.
  split; [reflexivity|]. split; [lia|]. split; [|split; [|lia]].
  - replace (Z.to_nat (Z.of_nat size - 2))
      with (length (skipn 2 (firstn size d)))
      by (rewrite length_skipn, Hl1; lia).
    apply firstn_exact.
  - replace (Z.to_nat (Z.of_nat (length d - size) - 2))
      with (length (skipn 2 (skipn size d)))
      by (rewrite length_skipn, Hl2; lia).
    rewrite firstn_exact, skipn_skipn. f_equal. lia.
Qed.

(** The twelve bytes of [sampleRTP] on a buffer of eight: six bytes and
    two bytes arrive, the bytes [xde] and [xad] at offsets 8 and 9 are
    lost. *)
Lemma tcp_long_chunk_is_split_and_loses_two_bytes_witness :
  exists p1 p2,
    trace (run (TransportTCP.readDataPacket sampleSize) (repeat LoopStep 7)
               (spawn sampleSize sampleTCP [Datagram sampleRTP tt])) =
    [EvSetReadDeadline DataConn 20; EvRead DataConn; EvOnRecvData Self p1;
     EvSetReadDeadline DataConn 20; EvRead DataConn; EvOnRecvData Self p2] /\
    inUse p1 = Z.of_nat sampleSize - 2 /\
    inUse p2 = Z.of_nat (length sampleRTP) - Z.of_nat sampleSize - 2 /\
    firstn (Z.to_nat (inUse p1)) (buffer p1) =
    skipn 2 (firstn sampleSize sampleRTP) /\
    firstn (Z.to_nat (inUse p2)) (buffer p2) = skipn (sampleSize + 2) sampleRTP /\
    inUse p1 + inUse p2 = Z.of_nat (length sampleRTP) - 4.
Proof.
  apply (tcp_long_chunk_is_split_and_loses_two_bytes
           sampleSize sampleTCP Self sampleRTP eq_refl eq_refl);
    unfold sampleSize, sampleRTP; cbn [length]; lia.
Defined.
